(** * The raster pipeline of [src/app.py] ([update_map]) in Rocq

    The Dash callback [update_map] composes the selected factor layers on a
    copy of the shared base raster, normalises, thresholds and colours the
    result, crops it to the significant pixels, writes the image and returns
    the overlay URL, its geographic bounds, the opacity and a description.

    Conventions of the embedding:
    - a float64 cell of a raster is an exact rational ([Qc]); the values that
      only IEEE division produces (NaN and the infinities) are explicit
      constructors of [float64], which is the cell type of the normalised
      array.  Rounding is not modelled;
    - arrays are eager row-major lists of rows with numpy's semantics (the
      lazy evaluation of the chunked arrays is not modelled);
    - xarray objects live in a store ([heap]); [base_raster] is a location in
      it, shared by all requests, and [copy] allocates a new object;
    - the file system is split in the raster layers that [load_raster] reads
      and the static directory the image is written to;
    - Python exceptions are the [Raised] outcome of the monad [M];
    - the colour ramp (matplotlib's) and the clock reading of one call are
      inputs; the WEBP encoder is left out: the file written holds the
      uint8 RGBA array handed to the encoder. *)

From Stdlib Require Import QArith Qcanon ZArith NArith String Ascii.
From stdpp Require Import gmap strings list numbers.

Local Open Scope Qc_scope.

(** ** Numbers *)

Inductive float64 : Type :=
  | Fin (q : Qc)
  | PInf
  | NInf
  | NaN.

#[global] Instance float64_eq_dec : EqDecision float64.
Proof. solve_decision. Defined.

Definition Qc_of_nat (n : nat) : Qc := Qc_of_Z (Z.of_nat n).

Definition Qc_ltb (x y : Qc) : bool := bool_decide (x < y).
Definition Qc_leb (x y : Qc) : bool := bool_decide (x ≤ y).

(** numpy's maximum of two finite values *)
Definition Qc_max (x y : Qc) : Qc := if Qc_ltb x y then y else x.

(** float64 true division [x / m] of finite operands *)
Definition fdiv (x m : Qc) : float64 :=
  if bool_decide (m = 0) then
    if bool_decide (x = 0) then NaN
    else if Qc_ltb 0 x then PInf else NInf
  else Fin (x / m).

(** [v < t] and [v > 0] on float64: every comparison with NaN is False *)
Definition flt (v : float64) (t : Qc) : bool :=
  match v with
  | Fin q => Qc_ltb q t
  | NInf => true
  | PInf | NaN => false
  end.

Definition fgt0 (v : float64) : bool :=
  match v with
  | Fin q => Qc_ltb 0 q
  | PInf => true
  | NInf | NaN => false
  end.

(** [astype(np.uint8)] of a finite value: truncation, then wrap-around *)
Definition to_uint8 (q : Qc) : Z :=
  (Z.quot (Qnum q) (Zpos (Qden q))) mod 256.

(** ** Arrays *)

Abbreviation grid := (list (list Qc)).

Definition shape {A} (g : list (list A)) : nat * nat :=
  (length g, length (hd [] g)).

(** every row has the length [shape] reports *)
Definition rect {A} (g : list (list A)) : Prop :=
  Forall (λ row, length row = (shape g).2) g.

Definition same_shape (a b : grid) : bool :=
  bool_decide (length <$> a = length <$> b).

Definition cell {A} (g : list (list A)) (r c : nat) : option A :=
  g !! r ≫= (.!! c).

Definition gmap2 {A B} (f : A → B) (g : list (list A)) : list (list B) :=
  (λ row : list A, f <$> row) <$> g.

(** [base_raster.data[base_raster.data >= 0] = 0] *)
Definition zero_where_ge0 (g : grid) : grid :=
  gmap2 (λ x, if Qc_leb 0 x then 0 else x) g.

(** [A.data[A.data < 0] = 0] *)
Definition zero_where_lt0 (g : grid) : grid :=
  gmap2 (λ x, if Qc_ltb x 0 then 0 else x) g.

(** [a op= b] on equal shapes *)
Definition elementwise (op : Qc → Qc → Qc) (a b : grid) : grid :=
  zip_with (zip_with op) a b.

(** [A.data /= n] *)
Definition div_scalar (g : grid) (n : nat) : grid :=
  gmap2 (λ x, x / Qc_of_nat n) g.

(** [A.data.max()]: [None] stands for the ValueError of an empty array *)
Definition grid_max (g : grid) : option Qc :=
  match concat g with
  | [] => None
  | x :: xs => Some (foldl Qc_max x xs)
  end.

(** [A.data / A_max] *)
Definition normalize (g : grid) (A_max : Qc) : list (list float64) :=
  gmap2 (λ x, fdiv x A_max) g.

(** [normalized_data[normalized_data < threshold] = 0] *)
Definition apply_threshold (threshold : Qc) (nd : list (list float64))
  : list (list float64) :=
  gmap2 (λ v, if flt v threshold then Fin 0 else v) nd.

(** [np.argwhere(mask)]: the (row, column) pairs of the True cells, row-major *)
Fixpoint where_row (r c : nat) (row : list bool) : list (nat * nat) :=
  match row with
  | [] => []
  | b :: rest => (if b then [(r, c)] else []) ++ where_row r (S c) rest
  end.

Fixpoint argwhere_from (r : nat) (mask : list (list bool)) : list (nat * nat) :=
  match mask with
  | [] => []
  | row :: rest => where_row r 0 row ++ argwhere_from (S r) rest
  end.

Definition argwhere (mask : list (list bool)) : list (nat * nat) :=
  argwhere_from 0 mask.

(** [.min(axis=0)] and [.max(axis=0)] of one column of a non-empty index array *)
Definition amin (l : list nat) : nat := foldr Nat.min (hd 0%nat l) l.
Definition amax (l : list nat) : nat := foldr Nat.max (hd 0%nat l) l.

(** [a[lo:hi]] *)
Definition slice {A} (lo hi : nat) (l : list A) : list A :=
  take (hi - lo) (drop lo l).

(** ** Images *)

(** one RGBA cell of the float image the colour ramp returns *)
Record pixel : Type := mkPixel { red : Qc; green : Qc; blue : Qc; alpha : Qc }.

(** one cell of the uint8 image *)
Record pixel8 : Type := mkPixel8 { r8 : Z; g8 : Z; b8 : Z; a8 : Z }.

#[global] Instance pixel_eq_dec : EqDecision pixel.
Proof. solve_decision. Defined.
#[global] Instance pixel8_eq_dec : EqDecision pixel8.
Proof. solve_decision. Defined.

Abbreviation image := (list (list pixel8)).

(** [A_rgba[..., 3] = (normalized_data > 0).astype(float)] *)
Definition set_alpha (rgba : list (list pixel)) (nd : list (list float64))
  : list (list pixel) :=
  zip_with (zip_with (λ p v,
    mkPixel (red p) (green p) (blue p) (if fgt0 v then 1 else 0))) rgba nd.

(** [A_rgba[min_row:max_row+1, min_col:max_col+1]] *)
Definition crop {A} (g : list (list A)) (min_row max_row min_col max_col : nat)
  : list (list A) :=
  slice min_col (S max_col) <$> slice min_row (S max_row) g.

(** [(x * 255).astype(np.uint8)] of one RGBA cell *)
Definition to_pixel8 (p : pixel) : pixel8 :=
  mkPixel8 (to_uint8 (red p * Qc_of_nat 255)) (to_uint8 (green p * Qc_of_nat 255))
           (to_uint8 (blue p * Qc_of_nat 255)) (to_uint8 (alpha p * Qc_of_nat 255)).

(** [(A_cropped * 255).astype(np.uint8)] *)
Definition to_image (rgba : list (list pixel)) : image :=
  gmap2 to_pixel8 rgba.

(** ** Geographic bounds *)

(** the tuple (left, bottom, right, top) of [rio.bounds()]: indices 0..3 *)
Record BoundingBox : Type :=
  mkBounds { bounds_left : Qc; bounds_bottom : Qc;
             bounds_right : Qc; bounds_top : Qc }.

(** the nested list [[a, b], [c, d]] handed to the overlay *)
Abbreviation corners := ((Qc * Qc) * (Qc * Qc))%type.

#[global] Instance BoundingBox_eq_dec : EqDecision BoundingBox.
Proof. solve_decision. Defined.

(** ** The catalogue, xarray objects and the world *)

(** one row of [data_list] (the sheet HH_layers.xlsx) *)
Record FactorEntry : Type :=
  mkEntry { Name : string; Layer : string; Comment : string }.

Record DataArray : Type :=
  mkDataArray { data : grid; rio_bounds : BoundingBox }.

Record State : Type := mkState {
  heap : gmap positive DataArray;        (* live xarray objects *)
  layers_dir : gmap string DataArray;    (* raster files, by path *)
  static_dir : gmap string image         (* STATIC_PATH, by file name *)
}.

Inductive exn : Type :=
  | NameError | IndexError | RasterioIOError | ValueError | ZeroDivisionError.

Inductive outcome (A : Type) : Type :=
  | Returned (a : A)
  | Raised (e : exn).
Arguments Returned {A} a.
Arguments Raised {A} e.

(** a computation that reads and writes the world and may raise *)
Definition M (A : Type) : Type := State → outcome A * State.

#[global] Instance M_ret : MRet M := λ A a s, (Returned a, s).
#[global] Instance M_bind : MBind M := λ A B f m s,
  match m s with
  | (Returned a, s') => f a s'
  | (Raised e, s') => (Raised e, s')
  end.

Definition raise {A} (e : exn) : M A := λ s, (Raised e, s).

(** allocation of a new object *)
Definition new_object (d : DataArray) : M positive := λ s,
  let l := fresh (dom (heap s)) in
  (Returned l, mkState (<[l := d]> (heap s)) (layers_dir s) (static_dir s)).

Definition get_object (l : positive) : M DataArray := λ s,
  match heap s !! l with
  | Some d => (Returned d, s)
  | None => (Raised NameError, s)
  end.

(** assignment to the [.data] buffer of the object at [l] *)
Definition set_data (l : positive) (g : grid) : M unit := λ s,
  match heap s !! l with
  | Some d =>
      (Returned (),
       mkState (<[l := mkDataArray g (rio_bounds d)]> (heap s))
               (layers_dir s) (static_dir s))
  | None => (Raised NameError, s)
  end.

(** [rxr.open_rasterio(file_path, chunks="auto").squeeze()] *)
Definition load_raster (file_path : string) : M DataArray := λ s,
  match layers_dir s !! file_path with
  | Some d => (Returned d, s)
  | None => (Raised RasterioIOError, s)
  end.

(** [img.save(output_path, ...)], overwriting *)
Definition save_image (name : string) (img : image) : M unit := λ s,
  (Returned (),
   mkState (heap s) (layers_dir s) (<[name := img]> (static_dir s))).

(** [x.copy()]: a deep copy, a new object with the same contents *)
Definition copy (l : positive) : M positive :=
  d ← get_object l; new_object d.

(** [A.data op= B.data]; operands of different shapes raise ValueError
    (the layers are 2-D grids: broadcasting of degenerate shapes is left out) *)
Definition inplace (op : Qc → Qc → Qc) (A : positive) (B : DataArray) : M unit :=
  a ← get_object A;
  if same_shape (data a) (data B)
  then set_data A (elementwise op (data a) (data B))
  else raise ValueError.

(** ** The clock and the freshness token *)

Record datetime : Type := mkDatetime {
  year : N; month : N; day : N;
  hour : N; minute : N; second : N; microsecond : N
}.
Arguments mkDatetime (_ _ _ _ _ _ _)%_N.

(** the decimal digits of a field, zero-padded to two and to four places *)
Definition digit (n : N) : ascii := ascii_of_N (48 + n mod 10).
Definition zfill2 (n : N) : string :=
  String (digit (n / 10)) (String (digit n) EmptyString).
Definition zfill4 (n : N) : string :=
  String (digit (n / 1000)) (String (digit (n / 100)) (zfill2 n)).

(** [now.strftime("%Y%m%d%H%M%S")] *)
Definition strftime (now : datetime) : string :=
  zfill4 (year now) +:+ zfill2 (month now) +:+ zfill2 (day now) +:+
  zfill2 (hour now) +:+ zfill2 (minute now) +:+ zfill2 (second now).

Definition LF : string := String "010"%char EmptyString.

(** truthiness of a multi-dropdown value: [None] and [[]] are falsy *)
Definition truthy {A} (v : option (list A)) : bool :=
  match v with
  | Some (_ :: _) => true
  | _ => false
  end.

Definition STATIC_PATH : string := "static".

(** ** The callback *)

(** what [update_map] returns: url, bounds, opacity, description *)
Record Outputs : Type := mkOutputs {
  image_url : string;
  out_bounds : corners;
  opacity : Qc;
  description : string
}.

Section Pipeline.

(** the module-level names the callback reads *)
Variable data_list : list FactorEntry.
Variable base_raster : positive.
(** [plt.get_cmap("jet")], applied to one cell *)
Variable jet : float64 → pixel.

(** [data_list.<column>[data_list.Name == factor].values[0]] *)
Definition catalog_lookup (column : FactorEntry → string) (factor : string)
  : M string :=
  match filter (λ e, Name e = factor) data_list with
  | e :: _ => mret (column e)
  | [] => raise IndexError
  end.

(** the loop over one factor list: lines 471-475 ([op] is [+]) and
    478-482 ([op] is [-]); [n] is the running counter *)
Fixpoint accumulate (op : Qc → Qc → Qc) (A : positive)
    (factors : list string) (n : nat) : M nat :=
  match factors with
  | [] => mret n
  | factor :: rest =>
      layer ← catalog_lookup Layer factor;
      let filename := "Layers/" +:+ layer in
      B ← load_raster filename;
      inplace op A B;;
      accumulate op A rest (S n)
  end.

(** lines 467-486: the composite, left in the object [A] *)
Definition composite (pos_factors neg_factors : option (list string))
  : M positive :=
  A ← copy base_raster;
  let n := 0%nat in
  n ← (if truthy pos_factors
       then accumulate Qcplus A (default [] pos_factors) n
       else mret n);
  n ← (if truthy neg_factors
       then accumulate Qcminus A (default [] neg_factors) n
       else mret n);
  (if bool_decide (0 < n)%nat
   then a ← get_object A; set_data A (div_scalar (data a) n)
   else mret ());;
  a ← get_object A;
  set_data A (zero_where_lt0 (data a));;
  mret A.

(** lines 493-499: threshold, colour ramp and alpha channel *)
Definition threshold_of (data_threshold : Z) : Qc :=
  Qc_of_Z data_threshold / Qc_of_Z 100.

Definition colour (normalized_data : list (list float64))
  : list (list pixel) :=
  set_alpha (gmap2 jet normalized_data) normalized_data.

(** Python's [x / k] for a float [x] and an int [k] *)
Definition pydiv (x : Qc) (k : nat) : M Qc :=
  if bool_decide (k = 0%nat) then raise ZeroDivisionError
  else mret (x / Qc_of_nat k).

(** lines 502-526: crop to the bounding box of the significant cells *)
Definition crop_to_significant (A : positive)
    (normalized_data : list (list float64)) (A_rgba : list (list pixel))
  : M (list (list pixel) * corners) :=
  let nonzero_indices := argwhere (gmap2 fgt0 normalized_data) in
  if bool_decide (0 < length nonzero_indices)%nat then
    let min_row := amin nonzero_indices.*1 in
    let min_col := amin nonzero_indices.*2 in
    let max_row := amax nonzero_indices.*1 in
    let max_col := amax nonzero_indices.*2 in
    let A_cropped := crop A_rgba min_row max_row min_col max_col in
    base ← get_object base_raster;
    let bounds := rio_bounds base in
    a ← get_object A;
    pixel_width ←
      pydiv (bounds_right bounds - bounds_left bounds) (shape (data a)).2;
    pixel_height ←
      pydiv (bounds_top bounds - bounds_bottom bounds) (shape (data a)).1;
    mret (A_cropped,
          ((bounds_top bounds - Qc_of_nat (max_row + 1) * pixel_height,
            bounds_left bounds + Qc_of_nat min_col * pixel_width),
           (bounds_top bounds - Qc_of_nat min_row * pixel_height,
            bounds_left bounds + Qc_of_nat (max_col + 1) * pixel_width)))
  else
    base ← get_object base_raster;
    let bounds := rio_bounds base in
    mret (A_rgba,
          ((bounds_top bounds, bounds_left bounds),
           (bounds_bottom bounds, bounds_right bounds))).

(** lines 487-526: normalise, threshold, colour and crop the composite *)
Definition colorize (A : positive) (data_threshold : Z)
  : M (list (list pixel) * corners) :=
  a ← get_object A;
  A_max ← match grid_max (data a) with
          | Some m => mret m
          | None => raise ValueError
          end;
  let normalized_data := normalize (data a) A_max in
  let threshold := threshold_of data_threshold in
  let normalized_data := apply_threshold threshold normalized_data in
  let A_rgba := colour normalized_data in
  crop_to_significant A normalized_data A_rgba.

(** lines 541-543 and 549-551: the entries of one section *)
Fixpoint describe_factors (factors : list string) (description : string)
  : M string :=
  match factors with
  | [] => mret description
  | factor :: rest =>
      let description := description +:+ "***- " +:+ factor +:+ "***  " +:+ LF in
      comment ← catalog_lookup Comment factor;
      let description := description +:+ comment +:+ "  " +:+ LF in
      describe_factors rest description
  end.

Definition POSITIVE_HEADER : string :=
  "**Pozitīvie faktori ar koeficienta vērtību +1:**  " +:+ LF.
Definition NEGATIVE_HEADER : string :=
  "  " +:+ LF +:+ "**Negatīvie faktori ar koeficienta vērtību -1:**  " +:+ LF.
Definition NONE_SELECTED : string := "- Nav izvēlēts neviens".

(** lines 539-553 *)
Definition describe (pos_factors neg_factors : option (list string))
  : M string :=
  let description := POSITIVE_HEADER in
  description ←
    (if truthy pos_factors
     then describe_factors (default [] pos_factors) description
     else mret (description +:+ NONE_SELECTED +:+ "  " +:+ LF));
  let description := description +:+ NEGATIVE_HEADER in
  if truthy neg_factors
  then describe_factors (default [] neg_factors) description
  else mret (description +:+ NONE_SELECTED).

Definition output_filename : string := "output_raster.webp".

(** lines 463-558 *)
Definition update_map (pos_factors neg_factors : option (list string))
    (transparency : Qc) (data_threshold : Z) (now : datetime) : M Outputs :=
  if negb (truthy pos_factors) && negb (truthy neg_factors) then
    mret (mkOutputs "" ((Qc_of_Z 56, Qc_of_Z 24), (Qc_of_Z 58, Qc_of_Z 26))
                    transparency "No factors selected.")
  else
    A ← composite pos_factors neg_factors;
    '(A_cropped, cropped_bounds) ← colorize A data_threshold;
    let output_path := STATIC_PATH +:+ "/" +:+ output_filename in
    save_image output_path (to_image A_cropped);;
    let timestamp := strftime now in
    let image_url := "/static/" +:+ output_filename +:+ "?t=" +:+ timestamp in
    description ← describe pos_factors neg_factors;
    mret (mkOutputs image_url cropped_bounds transparency description).

End Pipeline.

(** ** Start-up (lines 106-110) *)

Definition BASE_PATH : string := "Layers/10301.tif".

(** [load_raster] of the base file, the masking of its non-negative cells,
    and the object [base_raster] is bound to *)
Definition startup : M positive :=
  base ← load_raster BASE_PATH;
  new_object (mkDataArray (zero_where_ge0 (data base)) (rio_bounds base)).

(** ** The rest of the module: dropdown keys and the colour scale *)

(** [data_keys = list(data_list.Name)] (line 107): the names both dropdowns
    offer *)
Definition data_keys (data_list : list FactorEntry) : list string :=
  Name <$> data_list.

Section Colorscale.

(** [plt.get_cmap('jet')] on a scalar, and [colors.to_hex] *)
Variable jet : float64 → pixel.
Variable to_hex : pixel → string.

(** the list comprehension of line 90 over the indices [idx]; the division
    [i / (n_colors - 1)] of two ints raises when the divisor is 0 *)
Fixpoint colorscale_from (idx : list nat) (n_colors : nat)
  : outcome (list string) :=
  match idx with
  | [] => Returned []
  | i :: rest =>
      if bool_decide (Z.of_nat n_colors - 1 = 0)%Z then Raised ZeroDivisionError
      else
        let x := Qc_of_nat i / Qc_of_Z (Z.of_nat n_colors - 1) in
        match colorscale_from rest n_colors with
        | Raised e => Raised e
        | Returned colours => Returned (to_hex (jet (Fin x)) :: colours)
        end
  end.

(** lines 88-90 *)
Definition get_jet_colorscale (n_colors : nat) : outcome (list string) :=
  colorscale_from (seq 0 n_colors) n_colors.

End Colorscale.

(** * Functional models of the stages *)

(** the world with another store *)
Definition with_heap (s : State) (h : gmap positive DataArray) : State :=
  mkState h (layers_dir s) (static_dir s).

Section Models.

Variable data_list : list FactorEntry.
Variable files : gmap string DataArray.

(** the first catalogue row named [factor] *)
Definition catalog_row (factor : string) : option FactorEntry :=
  head (filter (λ e, Name e = factor) data_list).

(** the layer a factor name resolves to *)
Definition resolve (factor : string) : outcome DataArray :=
  match catalog_row factor with
  | None => Raised IndexError
  | Some e =>
      match files !! ("Layers/" +:+ Layer e) with
      | None => Raised RasterioIOError
      | Some B => Returned B
      end
  end.

(** the accumulator after the loop over [factors], or the exception of the
    first factor that fails *)
Fixpoint accumulate_grid (op : Qc → Qc → Qc) (g : grid)
    (factors : list string) : outcome grid :=
  match factors with
  | [] => Returned g
  | factor :: rest =>
      match resolve factor with
      | Raised e => Raised e
      | Returned B =>
          if same_shape g (data B)
          then accumulate_grid op (elementwise op g (data B)) rest
          else Raised ValueError
      end
  end.

(** the grid [composite] leaves in [A], from the grid [g] of the base *)
Definition composite_grid (g : grid) (pos neg : list string) : outcome grid :=
  match accumulate_grid Qcplus g pos with
  | Raised e => Raised e
  | Returned g1 =>
      match accumulate_grid Qcminus g1 neg with
      | Raised e => Raised e
      | Returned g2 =>
          let n := (length pos + length neg)%nat in
          Returned (zero_where_lt0
                      (if bool_decide (0 < n)%nat then div_scalar g2 n else g2))
      end
  end.

(** [factor] names a catalogue row whose file holds the layer [B], of the
    shape of [g] *)
Definition resolves_to (g : grid) (factor : string) (B : DataArray) : Prop :=
  resolve factor = Returned B ∧ same_shape g (data B) = true.

End Models.

(** the first factor of [factors] that does not resolve, after a prefix
    that does, fails with [e] *)
Definition first_failure (data_list : list FactorEntry)
    (files : gmap string DataArray) (g : grid) (factors : list string)
    (e : exn) : Prop :=
  ∃ before factor after layers,
    factors = before ++ factor :: after
    ∧ Forall2 (resolves_to data_list files g) before layers
    ∧ resolve data_list files factor = Raised e.

(** the sum of the values of one pixel over a list of layers *)
Definition total (xs : list Qc) : Qc := foldr Qcplus 0 xs.

(** a pixel whose normalised, thresholded value is greater than zero *)
Definition significant (nd : list (list float64)) (r c : nat) : Prop :=
  ∃ v, cell nd r c = Some v ∧ fgt0 v = true.


(** the normalised and thresholded array [colorize] works on *)
Definition thresholded (g : grid) (A_max : Qc) (data_threshold : Z)
  : list (list float64) :=
  apply_threshold (threshold_of data_threshold) (normalize g A_max).

(** the pixel of a normalised value: the ramp's colour, alpha by significance *)
Definition shade (jet : float64 → pixel) (v : float64) : pixel :=
  mkPixel (red (jet v)) (green (jet v)) (blue (jet v)) (if fgt0 v then 1 else 0).

(** the value a computation returned, if it returned *)
Definition returned {A} (r : outcome A * State) : option A :=
  match r.1 with
  | Returned a => Some a
  | Raised _ => None
  end.

(** the value the composite holds at one pixel, when [composite] returns *)
Definition composite_cell (data_list : list FactorEntry) (base_raster : positive)
    (pos_factors neg_factors : option (list string)) (s : State) (r c : nat)
  : option Qc :=
  let run := composite data_list base_raster pos_factors neg_factors s in
  A ← returned run; a ← heap run.2 !! A; cell (data a) r c.

(** one entry of a section: the factor's name, then its comment *)
Definition entry (name comment : string) : string :=
  ("***- " +:+ name +:+ "***  " +:+ LF) +:+ (comment +:+ "  " +:+ LF).

(** the entries of the factors [names], in order *)
Fixpoint listing (names comments : list string) : string :=
  match names, comments with
  | name :: names, comment :: comments =>
      entry name comment +:+ listing names comments
  | _, _ => ""
  end.

Section DescriptionModel.

Variable data_list : list FactorEntry.

(** the catalogue comments of a list of factors, in order *)
Fixpoint comments_of (factors : list string) : outcome (list string) :=
  match factors with
  | [] => Returned []
  | factor :: rest =>
      match catalog_row data_list factor with
      | None => Raised IndexError
      | Some e =>
          match comments_of rest with
          | Returned comments => Returned (Comment e :: comments)
          | Raised x => Raised x
          end
      end
  end.

(** the body of one section *)
Definition section_body (factors : list string) (placeholder : string)
  : outcome string :=
  match factors with
  | [] => Returned placeholder
  | _ => match comments_of factors with
         | Returned comments => Returned (listing factors comments)
         | Raised x => Raised x
         end
  end.

(** the text [describe] builds: header, body, header, body *)
Definition description_of (pos neg : list string) : outcome string :=
  match section_body pos (NONE_SELECTED +:+ "  " +:+ LF) with
  | Raised x => Raised x
  | Returned body_pos =>
      match section_body neg NONE_SELECTED with
      | Raised x => Raised x
      | Returned body_neg =>
          Returned (POSITIVE_HEADER +:+ body_pos +:+ NEGATIVE_HEADER +:+ body_neg)
      end
  end.

End DescriptionModel.

(** [os.path.join(STATIC_PATH, output_filename)] *)
Definition output_path : string := STATIC_PATH +:+ "/" +:+ output_filename.

(** the URL of the image written at the clock reading [now] *)
Definition url_at (now : datetime) : string :=
  "/static/" +:+ output_filename +:+ "?t=" +:+ strftime now.

(** the guard of line 464 *)
Definition nothing_selected (pos_factors neg_factors : option (list string))
  : bool :=
  negb (truthy pos_factors) && negb (truthy neg_factors).

(** the world after the image, if any, is saved *)
Definition write_image (img : option image) (s : State) : State :=
  match img with
  | Some i => mkState (heap s) (layers_dir s) (<[output_path := i]> (static_dir s))
  | None => s
  end.

Section RequestModel.

Variable data_list : list FactorEntry.
Variable base_raster : positive.
Variable jet : float64 → pixel.

(** [colorize] on a store that holds the base raster and the composite
    only *)
Definition colorize_of (base : DataArray) (G : grid) (t : Z)
  : outcome (list (list pixel) * corners) :=
  let A := fresh (dom ({[base_raster := base]} : gmap positive DataArray)) in
  (colorize base_raster jet A t
     (mkState (<[A := mkDataArray G (rio_bounds base)]> {[base_raster := base]})
              ∅ ∅)).1.

(** what a request with a selection returns and the image it writes, from
    the base raster and the layer files *)
Definition respond (base : DataArray) (layers : gmap string DataArray)
    (pos neg : option (list string)) (transparency : Qc) (t : Z)
    (now : datetime) : outcome Outputs * option image :=
  match composite_grid data_list layers (data base)
          (default [] pos) (default [] neg) with
  | Raised e => (Raised e, None)
  | Returned G =>
      match colorize_of base G t with
      | Raised e => (Raised e, None)
      | Returned (A_cropped, cropped_bounds) =>
          (match description_of data_list (default [] pos) (default [] neg) with
           | Raised e => Raised e
           | Returned d =>
               Returned (mkOutputs (url_at now) cropped_bounds transparency d)
           end,
           Some (to_image A_cropped))
      end
  end.

End RequestModel.

(** ** Sequences of requests *)

(** the four inputs of the callback and the clock reading of the call *)
Record Request : Type := mkRequest {
  req_pos : option (list string);
  req_neg : option (list string);
  req_transparency : Qc;
  req_threshold : Z;
  req_now : datetime
}.

Section Server.

Variable data_list : list FactorEntry.
Variable base_raster : positive.
Variable jet : float64 → pixel.

(** the callback on one request *)
Definition handle (q : Request) : M Outputs :=
  update_map data_list base_raster jet (req_pos q) (req_neg q)
             (req_transparency q) (req_threshold q) (req_now q).

(** the world after a sequence of requests; a request that raises leaves
    the process running *)
Definition serve (requests : list Request) (s : State) : State :=
  foldl (λ s q, (handle q s).2) s requests.

End Server.

(** a clock reading whose fields fit the widths of the format *)
Definition valid_datetime (d : datetime) : Prop :=
  (year d < 10000 ∧ month d < 100 ∧ day d < 100
   ∧ hour d < 100 ∧ minute d < 100 ∧ second d < 100)%N.

(** the reading down to whole seconds *)
Definition to_second (d : datetime) : N * N * N * N * N * N :=
  (year d, month d, day d, hour d, minute d, second d).

(** [sub] occurs in [s] *)
Definition infix_of (sub s : string) : Prop :=
  ∃ pre post, s = pre +:+ sub +:+ post.

(** the decision procedure for [infix_of] *)
Fixpoint occurs (sub s : string) : bool :=
  String.prefix sub s
  || match s with
     | EmptyString => false
     | String _ rest => occurs sub rest
     end.

(** ** A sample deployment, for evaluating the pipeline *)

Definition qc (n : Z) (d : positive) : Qc := Q2Qc (n # d).

(** a colour ramp: red grows and blue falls with the value *)
Definition sample_ramp (v : float64) : pixel :=
  match v with
  | Fin q => mkPixel q 0 (1 - q) 1
  | PInf => mkPixel 1 0 0 1
  | NInf => mkPixel 0 0 1 1
  | NaN => mkPixel 0 0 0 0
  end.

Definition sample_bounds : BoundingBox :=
  mkBounds (qc 24 1) (qc 56 1) (qc 26 1) (qc 58 1).

Definition sample_catalog : list FactorEntry :=
  [ mkEntry "A" "a.tif" "ca"; mkEntry "B" "b.tif" "cb" ].

Definition sample_layers : gmap string DataArray :=
  <[ BASE_PATH := mkDataArray [[qc 3 1; qc (-1) 1]; [0; qc 5 1]] sample_bounds ]>
  (<[ "Layers/a.tif" := mkDataArray [[qc 1 1; qc 3 1]; [qc 2 1; qc 4 1]] sample_bounds ]>
  (<[ "Layers/b.tif" := mkDataArray [[qc 3 1; qc 3 1]; [qc 6 1; qc 0 1]] sample_bounds ]>
   ∅)).

(** the process before [startup], and after it *)
Definition sample_disk : State := mkState ∅ sample_layers ∅.
Definition sample_base : positive := fresh (dom (heap sample_disk)).
Definition sample_state : State := (startup sample_disk).2.

Definition sample_time : datetime := mkDatetime 2025 3 14 15 9 26 535.

#[global] Instance exn_eq_dec : EqDecision exn.
Proof. solve_decision. Defined.
#[global] Instance outcome_eq_dec {A} `{EqDecision A} : EqDecision (outcome A).
Proof. solve_decision. Defined.
#[global] Instance Outputs_eq_dec : EqDecision Outputs.
Proof. solve_decision. Defined.
#[global] Instance DataArray_eq_dec : EqDecision DataArray.
Proof. solve_decision. Defined.

(** closed equalities and orders over [Qc] are decided by evaluation *)
Ltac by_evaluation :=
  match goal with
  | |- ?P => apply (bool_decide_eq_true_1 P); vm_compute; reflexivity
  end.

(** the crop scenario: a 6 x 8 composite that is non-zero on rows 2..4 and
    columns 3..5 only, over a base raster that spans 24..26 E, 56..58 N *)
Definition scenario_row0 : list Qc := [0; 0; 0; 0; 0; 0; 0; 0].
Definition scenario_row1 : list Qc := [0; 0; 0; qc 1 1; qc 2 1; qc 1 1; 0; 0].
Definition scenario_grid : grid :=
  [scenario_row0; scenario_row0; scenario_row1; scenario_row1; scenario_row1;
   scenario_row0].
Definition scenario_state : State :=
  mkState (<[1%positive := mkDataArray (replicate 6 scenario_row0) sample_bounds]>
           (<[2%positive := mkDataArray scenario_grid sample_bounds]> ∅))
          ∅ ∅.

(** * Properties *)

(** ** Running the monad *)

Lemma bind_returned {A B} (m : M A) (f : A → M B) s a s' :
  m s = (Returned a, s') → (m ≫= f) s = f a s'.
Proof. intros E. unfold mbind, M_bind. by rewrite E. Qed.

Lemma bind_raised {A B} (m : M A) (f : A → M B) s e s' :
  m s = (Raised e, s') → (m ≫= f) s = (Raised e, s').
Proof. intros E. unfold mbind, M_bind. by rewrite E. Qed.

Lemma bind_inv {A B} (m : M A) (f : A → M B) s b s2 :
  (m ≫= f) s = (Returned b, s2) →
  ∃ a s1, m s = (Returned a, s1) ∧ f a s1 = (Returned b, s2).
Proof.
  unfold mbind, M_bind. destruct (m s) as [[a|e] s1]; [eauto | discriminate].
Qed.

Lemma with_heap_id s : with_heap s (heap s) = s.
Proof. by destruct s. Qed.

Lemma get_object_some s l d :
  heap s !! l = Some d → get_object l s = (Returned d, s).
Proof. intros E. unfold get_object. by rewrite E. Qed.

Lemma set_data_some s l d g :
  heap s !! l = Some d →
  set_data l g s =
    (Returned (), with_heap s (<[l := mkDataArray g (rio_bounds d)]> (heap s))).
Proof. intros E. unfold set_data. by rewrite E. Qed.

(** ** The composite as a function of the base grid and the layer files *)

Section Composite.

Variable data_list : list FactorEntry.
Variable files : gmap string DataArray.

Lemma catalog_lookup_run column factor s :
  catalog_lookup data_list column factor s =
    (match catalog_row data_list factor with
     | Some e => Returned (column e)
     | None => Raised IndexError
     end, s).
Proof.
  unfold catalog_lookup, catalog_row.
  by destruct (filter _ data_list).
Qed.

Lemma accumulate_run op A factors : ∀ n s a,
  heap s !! A = Some a →
  layers_dir s = files →
  ∃ g',
    accumulate data_list op A factors n s =
      (match accumulate_grid data_list files op (data a) factors with
       | Returned _ => Returned (n + length factors)%nat
       | Raised e => Raised e
       end,
       with_heap s (<[A := mkDataArray g' (rio_bounds a)]> (heap s)))
    ∧ (∀ g, accumulate_grid data_list files op (data a) factors = Returned g → g' = g).
Proof.
  induction factors as [|factor rest IH]; intros n s a Ha Hf; simpl.
  - exists (data a). split; [|congruence].
    rewrite Nat.add_0_r. unfold mret, M_ret. f_equal.
    destruct a; simpl. rewrite insert_id by done. by rewrite with_heap_id.
  - unfold resolve.
    unfold mbind at 1, M_bind at 1. rewrite catalog_lookup_run.
    destruct (catalog_row data_list factor) as [e|]; last first.
    { exists (data a). split; [|done]. f_equal.
      destruct a; simpl. rewrite insert_id by done. by rewrite with_heap_id. }
    unfold mbind at 1, M_bind at 1, load_raster. rewrite Hf.
    destruct (files !! _) as [B|]; last first.
    { exists (data a). split; [|done]. f_equal.
      destruct a; simpl. rewrite insert_id by done. by rewrite with_heap_id. }
    unfold mbind at 1, M_bind at 1, inplace.
    unfold mbind at 1, M_bind at 1. rewrite (get_object_some _ _ _ Ha).
    destruct (same_shape (data a) (data B)); last first.
    { exists (data a). split; [|done]. unfold raise. f_equal.
      destruct a; simpl. rewrite insert_id by done. by rewrite with_heap_id. }
    rewrite (set_data_some _ _ _ _ Ha).
    set (a1 := mkDataArray (elementwise op (data a) (data B)) (rio_bounds a)).
    destruct (IH (S n) (with_heap s (<[A := a1]> (heap s))) a1)
      as (g' & Hrun & Hg'); [by simpl; rewrite lookup_insert_eq | done |].
    exists g'. rewrite Hrun. simpl. split; [|done].
    rewrite insert_insert_eq. unfold with_heap; simpl.
    f_equal. destruct (accumulate_grid _ _ _ _ _); [|done]. f_equal. lia.
Qed.

End Composite.

Section CompositeRun.

Variable data_list : list FactorEntry.
Variable base_raster : positive.

Lemma truthy_loop {A B} (v : option (list A)) (f : list A → B) (z : B) :
  f [] = z → (if truthy v then f (default [] v) else z) = f (default [] v).
Proof. by destruct v as [[|]|]. Qed.

Lemma composite_no_base pos neg s :
  heap s !! base_raster = None →
  composite data_list base_raster pos neg s = (Raised NameError, s).
Proof.
  intros E. unfold composite, copy, get_object, mbind, M_bind. by rewrite E.
Qed.

(** [composite] allocates one new object, leaves the composite grid in it
    and touches nothing else *)
Lemma composite_run pos neg s base :
  heap s !! base_raster = Some base →
  ∃ g',
    composite data_list base_raster pos neg s =
      (match composite_grid data_list (layers_dir s) (data base)
               (default [] pos) (default [] neg) with
       | Returned _ => Returned (fresh (dom (heap s)))
       | Raised e => Raised e
       end,
       with_heap s (<[fresh (dom (heap s)) :=
                        mkDataArray g' (rio_bounds base)]> (heap s)))
    ∧ (∀ g, composite_grid data_list (layers_dir s) (data base)
              (default [] pos) (default [] neg) = Returned g → g' = g).
Proof.
  intros Hb. unfold composite, composite_grid.
  set (A := fresh (dom (heap s))).
  rewrite (bind_returned _ _ s A (with_heap s (<[A := base]> (heap s))));
    last by (unfold copy; rewrite (bind_returned _ _ _ _ _ (get_object_some _ _ _ Hb))).
  rewrite (truthy_loop pos (λ l, accumulate data_list Qcplus A l 0%nat)) by done.
  set (s1 := with_heap s (<[A := base]> (heap s))).
  destruct (accumulate_run data_list (layers_dir s) Qcplus A (default [] pos)
              0%nat s1 base) as (g1 & Hrun1 & Hg1);
    [by simpl; rewrite lookup_insert_eq | done |].
  destruct (accumulate_grid _ _ Qcplus _ _) as [gp|e] eqn:Ep; last first.
  { exists g1. split; [|done].
    rewrite (bind_raised _ _ _ _ _ Hrun1). f_equal.
    unfold with_heap; simpl. by rewrite insert_insert_eq. }
  specialize (Hg1 gp eq_refl) as ->.
  rewrite (bind_returned _ _ _ _ _ Hrun1). simpl.
  rewrite insert_insert_eq.
  rewrite (truthy_loop neg (λ l, accumulate data_list Qcminus A l _)) by done.
  set (a1 := mkDataArray gp (rio_bounds base)).
  set (s2 := with_heap s1 (<[A := a1]> (heap s))).
  destruct (accumulate_run data_list (layers_dir s) Qcminus A (default [] neg)
              (length (default [] pos)) s2 a1) as (g2 & Hrun2 & Hg2);
    [by simpl; rewrite lookup_insert_eq | done |].
  simpl in Hrun2, Hg2.
  destruct (accumulate_grid _ _ Qcminus _ _) as [gn|e] eqn:En; last first.
  { exists g2. split; [|done].
    rewrite (bind_raised _ _ _ _ _ Hrun2). f_equal.
    unfold with_heap; simpl. by rewrite insert_insert_eq. }
  specialize (Hg2 gn eq_refl) as ->.
  rewrite (bind_returned _ _ _ _ _ Hrun2). simpl.
  rewrite insert_insert_eq.
  set (n := (length (default [] pos) + length (default [] neg))%nat).
  eexists. split; [|intros g [= <-]; reflexivity].
  unfold mbind, M_bind, get_object, set_data, mret, M_ret, with_heap; simpl.
  destruct (bool_decide (0 < n)%nat); simpl;
    repeat (progress (rewrite ?lookup_insert_eq, ?insert_insert_eq; simpl));
    done.
Qed.

End CompositeRun.

(** ** Cells of derived arrays *)

Lemma cell_gmap2 {A B} (f : A → B) (g : list (list A)) r c :
  cell (gmap2 f g) r c = f <$> cell g r c.
Proof.
  unfold cell, gmap2. rewrite list_lookup_fmap.
  destruct (g !! r) as [row|]; simpl; [apply list_lookup_fmap | done].
Qed.

Lemma cell_zip_with {A B C} (f : A → B → C) a b r c x y :
  cell a r c = Some x → cell b r c = Some y →
  cell (zip_with (zip_with f) a b) r c = Some (f x y).
Proof.
  unfold cell. rewrite lookup_zip_with.
  destruct (a !! r) as [ra|], (b !! r) as [rb|]; simpl; try done.
  intros Ha Hb. rewrite lookup_zip_with, Ha; simpl. by rewrite Hb.
Qed.

Lemma same_shape_eq a b :
  same_shape a b = true → length <$> a = length <$> b.
Proof. unfold same_shape. apply bool_decide_eq_true_1. Qed.

Lemma same_shape_cell a b r c x :
  same_shape a b = true → cell a r c = Some x → ∃ y, cell b r c = Some y.
Proof.
  intros E%same_shape_eq. unfold cell.
  apply (f_equal (.!! r)) in E. rewrite !list_lookup_fmap in E.
  destruct (a !! r) as [ra|], (b !! r) as [rb|]; simplify_eq/=; try done.
  intros Hx%lookup_lt_Some. apply lookup_lt_is_Some. lia.
Qed.

Lemma elementwise_shape op a b :
  same_shape a b = true → length <$> elementwise op a b = length <$> a.
Proof.
  intros E%same_shape_eq. unfold elementwise.
  revert b E. induction a as [|ra a IH]; intros [|rb b] E; try done.
  injection E as E1 E2. simpl. f_equal; [|by apply IH].
  by apply length_zip_with_l_eq.
Qed.

Lemma same_shape_elementwise op a b b' :
  same_shape a b = true → same_shape a b' = true →
  same_shape (elementwise op a b) b' = true.
Proof.
  intros E E'. unfold same_shape. apply bool_decide_eq_true_2.
  rewrite elementwise_shape by done. by apply same_shape_eq.
Qed.

Lemma gmap2_shape {A B} (f : A → B) (g : list (list A)) :
  length <$> gmap2 f g = length <$> g.
Proof.
  unfold gmap2. rewrite <- list_fmap_compose. apply list_fmap_ext.
  intros i row _. simpl. apply length_fmap.
Qed.

Lemma foldl_plus_total b xs : foldl Qcplus b xs = b + total xs.
Proof.
  revert b. induction xs as [|x xs IH]; intros b; simpl.
  - by rewrite Qcplus_0_r.
  - rewrite IH. unfold total. ring.
Qed.

Lemma foldl_minus_total b xs : foldl Qcminus b xs = b - total xs.
Proof.
  revert b. induction xs as [|x xs IH]; intros b; simpl.
  - unfold Qcminus. change (- 0) with 0. by rewrite Qcplus_0_r.
  - rewrite IH. unfold total. simpl. ring.
Qed.


Section Layers.

Variable data_list : list FactorEntry.
Variable files : gmap string DataArray.

Lemma resolves_to_same_shape g factors layers :
  Forall2 (resolves_to data_list files g) factors layers →
  Forall (λ B : DataArray, same_shape g (data B) = true) layers.
Proof. induction 1 as [|f B fs Ls [_ Hs] _ IH]; by constructor. Qed.

Lemma accumulate_grid_resolved op factors : ∀ layers g,
  Forall2 (resolves_to data_list files g) factors layers →
  accumulate_grid data_list files op g factors =
    Returned (foldl (elementwise op) g (data <$> layers)).
Proof.
  induction factors as [|f factors IH]; intros layers g H;
    inversion H as [|? B ? layers' [Hr Hs] Hrest]; subst; simpl; [done|].
  rewrite Hr, Hs. apply IH.
  apply (list.Forall2_impl _ _ _ _ Hrest).
  intros f' B' [Hr' Hs']. split; [done|].
  by apply same_shape_elementwise.
Qed.

Lemma foldl_elementwise_shape op layers : ∀ g,
  Forall (λ B : DataArray, same_shape g (data B) = true) layers →
  length <$> foldl (elementwise op) g (data <$> layers) = length <$> g.
Proof.
  induction layers as [|B layers IH]; intros g H; simpl; [done|].
  inversion H as [|? ? Hs Hrest]; subst.
  rewrite IH, elementwise_shape; [done..|].
  apply (list.Forall_impl _ _ _ Hrest).
  intros B' Hs'. by apply same_shape_elementwise.
Qed.

Lemma foldl_elementwise_cell op layers r c : ∀ g b xs,
  Forall (λ B : DataArray, same_shape g (data B) = true) layers →
  cell g r c = Some b →
  Forall2 (λ (B : DataArray) x, cell (data B) r c = Some x) layers xs →
  cell (foldl (elementwise op) g (data <$> layers)) r c = Some (foldl op b xs).
Proof.
  induction layers as [|B layers IH]; intros g b xs Hs Hb Hx;
    inversion Hx as [|? x ? xs' Hc Hrest]; subst; simpl; [done|].
  inversion Hs as [|? ? Hs1 Hs2]; subst.
  apply IH; [|by apply cell_zip_with|done].
  apply (list.Forall_impl _ _ _ Hs2).
  intros B' Hs'. by apply same_shape_elementwise.
Qed.

Lemma layers_cells (g : grid) (layers : list DataArray) r c b :
  Forall (λ B : DataArray, same_shape g (data B) = true) layers →
  cell g r c = Some b →
  ∃ xs, Forall2 (λ (B : DataArray) x, cell (data B) r c = Some x) layers xs.
Proof.
  intros Hs Hb. induction Hs as [|B layers HB _ [xs IH]].
  - by exists [].
  - destruct (same_shape_cell _ _ _ _ _ HB Hb) as [x Hx].
    exists (x :: xs). by constructor.
Qed.

End Layers.

Lemma Qc_ltb_lt x y : Qc_ltb x y = true ↔ x < y.
Proof. unfold Qc_ltb. apply bool_decide_eq_true. Qed.

Lemma Qc_ltb_ge x y : Qc_ltb x y = false ↔ y ≤ x.
Proof. unfold Qc_ltb. rewrite bool_decide_eq_false. symmetry. apply Qcle_ngt. Qed.

Lemma clamp_is_max x : (if Qc_ltb x 0 then 0 else x) = Qc_max 0 x.
Proof.
  unfold Qc_max.
  destruct (Qc_ltb x 0) eqn:E1, (Qc_ltb 0 x) eqn:E2; try done.
  - apply Qc_ltb_lt in E1, E2. destruct (Qclt_not_le _ _ E1). by apply Qclt_le_weak.
  - apply Qc_ltb_ge in E1, E2. by apply Qcle_antisym.
Qed.

Lemma zero_where_lt0_cell g r c :
  cell (zero_where_lt0 g) r c = Qc_max 0 <$> cell g r c.
Proof.
  unfold zero_where_lt0. rewrite cell_gmap2.
  destruct (cell g r c); simpl; [|done]. by rewrite clamp_is_max.
Qed.

Lemma fresh_heap_ne (h : gmap positive DataArray) l d :
  h !! l = Some d → fresh (dom h) ≠ l.
Proof.
  intros E <-. apply (is_fresh (dom h)). apply elem_of_dom. eauto.
Qed.

Lemma zero_where_lt0_nonneg g :
  Forall (Forall (λ x, 0 ≤ x)) (zero_where_lt0 g).
Proof.
  unfold zero_where_lt0, gmap2. apply Forall_fmap, Forall_true. intros row.
  apply Forall_fmap, Forall_true. intros x. simpl.
  destruct (Qc_ltb x 0) eqn:E; [done|]. by apply Qc_ltb_ge.
Qed.

(** the grid [composite] returns has no negative cell *)
Lemma composite_nonneg data_list base_raster pos neg s A s' :
  composite data_list base_raster pos neg s = (Returned A, s') →
  ∃ a, heap s' !! A = Some a ∧ Forall (Forall (λ x, 0 ≤ x)) (data a).
Proof.
  intros Hrun.
  destruct (heap s !! base_raster) as [base|] eqn:Hb; last first.
  { by rewrite composite_no_base in Hrun. }
  destruct (composite_run data_list base_raster pos neg s base Hb)
    as (g' & Hrun' & Hg').
  rewrite Hrun in Hrun'. unfold composite_grid in Hrun', Hg'.
  destruct (accumulate_grid _ _ Qcplus _ _) as [g1|]; [|done].
  destruct (accumulate_grid _ _ Qcminus _ _) as [g2|]; [|done].
  injection Hrun' as -> ->. rewrite (Hg' _ eq_refl).
  eexists. split; [simpl; apply lookup_insert_eq|].
  apply zero_where_lt0_nonneg.
Qed.

Section CompositeCells.

Variable data_list : list FactorEntry.
Variable base_raster : positive.

Lemma resolves_to_shape files g g' :
  length <$> g' = length <$> g →
  ∀ f B, resolves_to data_list files g f B → resolves_to data_list files g' f B.
Proof.
  intros E f B [Hr Hs]. split; [done|].
  apply same_shape_eq in Hs. unfold same_shape.
  apply bool_decide_eq_true_2. congruence.
Qed.

(** the composite of resolvable selections, pixel by pixel: the base
    cell plus the positive layers minus the negative layers, divided by
    the number of selected factors, negative results set to 0 *)
Lemma composite_cells s base pos neg posL negL :
  heap s !! base_raster = Some base →
  Forall2 (resolves_to data_list (layers_dir s) (data base))
          (default [] pos) posL →
  Forall2 (resolves_to data_list (layers_dir s) (data base))
          (default [] neg) negL →
  (0 < length posL + length negL)%nat →
  ∃ a s',
    composite data_list base_raster pos neg s =
      (Returned (fresh (dom (heap s))), s')
    ∧ heap s' !! fresh (dom (heap s)) = Some a
    ∧ heap s' !! base_raster = Some base
    ∧ rio_bounds a = rio_bounds base
    ∧ length <$> data a = length <$> data base
    ∧ ∀ r c b, cell (data base) r c = Some b →
        ∃ xs ys,
          Forall2 (λ (B : DataArray) x, cell (data B) r c = Some x) posL xs
          ∧ Forall2 (λ (B : DataArray) y, cell (data B) r c = Some y) negL ys
          ∧ cell (data a) r c =
              Some (Qc_max 0 ((b + total xs - total ys)
                              / Qc_of_nat (length posL + length negL))).
Proof.
  intros Hb Hpos Hneg Hn.
  assert (HsP : Forall (λ B : DataArray, same_shape (data base) (data B) = true) posL).
  { by eapply resolves_to_same_shape. }
  assert (HsN : Forall (λ B : DataArray, same_shape (data base) (data B) = true) negL).
  { by eapply resolves_to_same_shape. }
  set (g1 := foldl (elementwise Qcplus) (data base) (data <$> posL)).
  assert (Hg1 : length <$> g1 = length <$> data base)
    by (by apply foldl_elementwise_shape).
  assert (HsN1 : Forall (λ B : DataArray, same_shape g1 (data B) = true) negL).
  { apply (list.Forall_impl _ _ _ HsN). intros B E%same_shape_eq.
    unfold same_shape. apply bool_decide_eq_true_2. congruence. }
  set (g2 := foldl (elementwise Qcminus) g1 (data <$> negL)).
  assert (Hg2 : length <$> g2 = length <$> data base).
  { unfold g2. by rewrite foldl_elementwise_shape. }
  destruct (composite_run data_list base_raster pos neg s base Hb)
    as (g' & Hrun & Hg').
  unfold composite_grid in Hrun, Hg'.
  rewrite (accumulate_grid_resolved _ _ _ _ _ _ Hpos) in Hrun, Hg'.
  fold g1 in Hrun, Hg'.
  assert (Hneg1 : Forall2 (resolves_to data_list (layers_dir s) g1)
                          (default [] neg) negL)
    by (by apply (list.Forall2_impl _ _ _ _ Hneg), resolves_to_shape).
  rewrite (accumulate_grid_resolved _ _ Qcminus _ negL g1 Hneg1) in Hrun, Hg'.
  fold g2 in Hrun, Hg'.
  simpl in Hrun.
  rewrite (list.Forall2_length _ _ _ Hpos), (list.Forall2_length _ _ _ Hneg) in Hg'.
  rewrite bool_decide_eq_true_2 in Hg' by done.
  specialize (Hg' _ eq_refl) as ->.
  eexists _, _. split; [exact Hrun|]. simpl.
  rewrite lookup_insert_eq.
  rewrite lookup_insert_ne by (by eapply fresh_heap_ne).
  do 3 (split; [done|]). split.
  { cbn [data]. unfold zero_where_lt0, div_scalar. by rewrite !gmap2_shape. }
  intros r c b Hc.
  destruct (layers_cells (data base) posL r c b HsP Hc) as [xs Hxs].
  destruct (layers_cells (data base) negL r c b HsN Hc) as [ys Hys].
  exists xs, ys. do 2 (split; [done|]). cbn [data].
  rewrite zero_where_lt0_cell. unfold div_scalar. rewrite cell_gmap2.
  unfold g2.
  rewrite (foldl_elementwise_cell Qcminus negL r c g1 (foldl Qcplus b xs) ys);
    [|done| |done].
  - simpl. by rewrite foldl_minus_total, foldl_plus_total.
  - by apply foldl_elementwise_cell.
Qed.

End CompositeCells.

(** ** Significant pixels and their bounding box *)

Lemma significant_mask nd r c :
  significant nd r c ↔ cell (gmap2 fgt0 nd) r c = Some true.
Proof.
  unfold significant. rewrite cell_gmap2.
  destruct (cell nd r c) as [v|]; simpl; split.
  - by intros (? & [= <-] & ->).
  - intros [= E]. eauto.
  - by intros (? & ? & _).
  - done.
Qed.

Lemma elem_of_where_row r row : ∀ c0 p,
  p ∈ where_row r c0 row ↔ ∃ c, p = (r, (c0 + c)%nat) ∧ row !! c = Some true.
Proof.
  induction row as [|b row IH]; intros c0 p; simpl.
  - split; [by intros ?%elem_of_nil | by intros (? & _ & ?)].
  - rewrite elem_of_app, IH. split.
    + intros [Hp|(c & -> & Hc)].
      * destruct b; [|by apply elem_of_nil in Hp].
        apply list_elem_of_singleton in Hp as ->.
        exists 0%nat. by rewrite Nat.add_0_r.
      * exists (S c). split; [f_equal; lia | done].
    + intros ([|c] & -> & Hc); simpl in Hc.
      * injection Hc as ->. left. rewrite Nat.add_0_r. apply list_elem_of_singleton. done.
      * right. exists c. split; [f_equal; lia | done].
Qed.

Lemma elem_of_argwhere_from mask : ∀ r0 p,
  p ∈ argwhere_from r0 mask ↔
  ∃ r c, p = ((r0 + r)%nat, c) ∧ cell mask r c = Some true.
Proof.
  induction mask as [|row mask IH]; intros r0 p; simpl.
  - split; [by intros ?%elem_of_nil | by intros (? & ? & _ & ?)].
  - rewrite elem_of_app, IH, elem_of_where_row. split.
    + intros [(c & -> & Hc)|(r & c & -> & Hc)].
      * exists 0%nat, c. by rewrite Nat.add_0_r.
      * exists (S r), c. split; [f_equal; lia | done].
    + intros ([|r] & c & -> & Hc).
      * left. exists c. by rewrite Nat.add_0_r.
      * right. exists r, c. split; [f_equal; lia | done].
Qed.

Lemma elem_of_argwhere mask r c :
  (r, c) ∈ argwhere mask ↔ cell mask r c = Some true.
Proof.
  unfold argwhere. rewrite elem_of_argwhere_from. split.
  - by intros (r' & c' & [= -> ->] & H).
  - intros H. by exists r, c.
Qed.






Lemma argwhere_nil nd :
  argwhere (gmap2 fgt0 nd) = [] ↔ ∀ r c, ¬ significant nd r c.
Proof.
  split.
  - intros E r c Hs. apply significant_mask, elem_of_argwhere in Hs.
    rewrite E in Hs. by apply elem_of_nil in Hs.
  - intros H. destruct (argwhere _) as [|[r c] l] eqn:E; [done|].
    destruct (H r c). apply significant_mask, elem_of_argwhere.
    rewrite E. by left.
Qed.

(** ** Running the colorize stage *)

Section Colorize.

Variable base_raster : positive.
Variable jet : float64 → pixel.

Lemma thresholded_shape g m t :
  length <$> thresholded g m t = length <$> g.
Proof. unfold thresholded, apply_threshold, normalize. by rewrite !gmap2_shape. Qed.

Lemma colorize_run A t s a m :
  heap s !! A = Some a →
  grid_max (data a) = Some m →
  colorize base_raster jet A t s =
    crop_to_significant base_raster A (thresholded (data a) m t)
      (colour jet (thresholded (data a) m t)) s.
Proof.
  intros Ha Hm. unfold colorize.
  rewrite (bind_returned _ _ _ _ _ (get_object_some _ _ _ Ha)).
  by rewrite Hm.
Qed.

Lemma colorize_empty A t s a :
  heap s !! A = Some a →
  grid_max (data a) = None →
  colorize base_raster jet A t s = (Raised ValueError, s).
Proof.
  intros Ha Hm. unfold colorize.
  rewrite (bind_returned _ _ _ _ _ (get_object_some _ _ _ Ha)).
  by rewrite Hm.
Qed.

Lemma crop_fallback A nd rgba s base :
  heap s !! base_raster = Some base →
  argwhere (gmap2 fgt0 nd) = [] →
  crop_to_significant base_raster A nd rgba s =
    (Returned (rgba,
               ((bounds_top (rio_bounds base), bounds_left (rio_bounds base)),
                (bounds_bottom (rio_bounds base), bounds_right (rio_bounds base)))),
     s).
Proof.
  intros Hb E. unfold crop_to_significant. rewrite E. simpl.
  by rewrite (bind_returned _ _ _ _ _ (get_object_some _ _ _ Hb)).
Qed.



End Colorize.

(** ** Arithmetic of the projected corners *)


Lemma Qc_of_nat_pos k : k ≠ 0%nat → 0 < Qc_of_nat k.
Proof.
  intros H. unfold Qc_of_nat. rewrite <- Z2Qc_inj_0.
  apply (proj1 (Z2Qc_inj_lt _ _)). lia.
Qed.




(** ** The sample deployment after start-up, and the crop stage *)

Lemma sample_startup :
  (startup sample_disk).1 = Returned sample_base
  ∧ heap sample_state !! sample_base
    = Some (mkDataArray [[0; qc (-1) 1]; [0; 0]] sample_bounds).
Proof. split; by_evaluation. Qed.



(** the crop scenario of the specification, evaluated: the rectangle
    [2..4, 3..5] of a 6 x 8 grid over 24..26 E, 56..58 N *)
Example crop_scenario :
  (colorize 1%positive sample_ramp 2%positive 0 scenario_state).1 =
    Returned
      (crop (colour sample_ramp (thresholded scenario_grid (qc 2 1) 0)) 2 4 3 5,
       ((qc 169 3, qc 99 4), (qc 172 3, qc 51 2))).
Proof. by_evaluation. Qed.

(** ** The maximum, and the cells of the image *)

Lemma Qc_max_l x y : x ≤ Qc_max x y.
Proof.
  unfold Qc_max. destruct (Qc_ltb x y) eqn:E; [|done].
  by apply Qclt_le_weak, Qc_ltb_lt.
Qed.

Lemma Qc_max_r x y : y ≤ Qc_max x y.
Proof.
  unfold Qc_max. destruct (Qc_ltb x y) eqn:E; [done|]. by apply Qc_ltb_ge.
Qed.

Lemma foldl_max_spec xs : ∀ x0,
  x0 ≤ foldl Qc_max x0 xs ∧ ∀ y, y ∈ xs → y ≤ foldl Qc_max x0 xs.
Proof.
  induction xs as [|x xs IH]; intros x0; simpl.
  - split; [done | by intros ? ?%elem_of_nil].
  - destruct (IH (Qc_max x0 x)) as [H1 H2]. split.
    + etrans; [apply Qc_max_l | exact H1].
    + intros y [->|Hy]%elem_of_cons; [|by apply H2].
      etrans; [apply Qc_max_r | exact H1].
Qed.

Lemma cell_in_concat {A} (g : list (list A)) r c x :
  cell g r c = Some x → x ∈ concat g.
Proof.
  unfold cell. destruct (g !! r) as [row|] eqn:Er; [|done]. simpl. intros Hc.
  apply list_elem_of_In, in_concat. exists row.
  split; apply list_elem_of_In; by eapply list_elem_of_lookup_2.
Qed.

Lemma grid_max_bound (g : grid) m r c x :
  grid_max g = Some m → cell g r c = Some x → x ≤ m.
Proof.
  unfold grid_max. intros Hm Hx%cell_in_concat.
  destruct (concat g) as [|x0 xs]; [done|]. injection Hm as <-.
  destruct (foldl_max_spec xs x0) as [H1 H2].
  by apply elem_of_cons in Hx as [->|Hx]; [|apply H2].
Qed.

Lemma colour_cell jet nd r c :
  cell (colour jet nd) r c = shade jet <$> cell nd r c.
Proof.
  unfold colour, set_alpha, cell, gmap2.
  rewrite lookup_zip_with, list_lookup_fmap.
  destruct (nd !! r) as [row|]; simpl; [|done].
  rewrite lookup_zip_with, list_lookup_fmap.
  by destruct (row !! c).
Qed.

Lemma colour_shape jet nd : length <$> colour jet nd = length <$> nd.
Proof.
  apply list_eq. intros r. rewrite !list_lookup_fmap.
  unfold colour, set_alpha, gmap2. rewrite lookup_zip_with, list_lookup_fmap.
  destruct (nd !! r) as [row|]; simpl; [|done].
  by rewrite length_zip_with, length_fmap, Nat.min_id.
Qed.

Lemma to_image_cell rgba r c :
  cell (to_image rgba) r c = to_pixel8 <$> cell rgba r c.
Proof. unfold to_image. by rewrite cell_gmap2. Qed.

(** the alpha byte of a pixel of the image, from its normalised value *)
Lemma alpha_byte jet v :
  a8 (to_pixel8 (shade jet v)) = if fgt0 v then 255%Z else 0%Z.
Proof. unfold to_pixel8, shade. simpl. by destruct (fgt0 v). Qed.




(** C1 (as amended): for every composite whose maximum is 0 (its cells are
    non-negative, so all are 0), [colorize] divides by the maximum all the
    same: every normalised value is NaN, not 0.  NaN is neither below the
    threshold nor above 0, so no pixel qualifies: [colorize] returns, without
    raising, the uncropped image and the fallback bounds of the full extent,
    and every pixel of the image written has alpha 0. *)
Theorem zero_composite_is_transparent
    (base_raster : positive) (jet : float64 → pixel) (A : positive) (t : Z)
    (s : State) (a base : DataArray) :
  heap s !! A = Some a →
  heap s !! base_raster = Some base →
  grid_max (data a) = Some 0 →
  Forall (Forall (λ x, 0 ≤ x)) (data a) →
  let nd := thresholded (data a) 0 t in
  (∀ r c x, cell (data a) r c = Some x →
     x = 0 ∧ cell (normalize (data a) 0) r c = Some NaN
     ∧ cell nd r c = Some NaN)
  ∧ colorize base_raster jet A t s =
      (Returned (colour jet nd,
                 ((bounds_top (rio_bounds base), bounds_left (rio_bounds base)),
                  (bounds_bottom (rio_bounds base), bounds_right (rio_bounds base)))),
       s)
  ∧ length <$> to_image (colour jet nd) = length <$> data a
  ∧ ∀ r c p, cell (to_image (colour jet nd)) r c = Some p → a8 p = 0%Z.
Proof.
  intros Ha Hb Hm Hpos nd.
  assert (Hcells : ∀ r c x, cell (data a) r c = Some x →
            x = 0 ∧ cell (normalize (data a) 0) r c = Some NaN
            ∧ cell nd r c = Some NaN).
  { intros r c x Hx.
    assert (x = 0) as ->.
    { apply Qcle_antisym; [by eapply grid_max_bound|].
      unfold cell in Hx. destruct (data a !! r) as [row|] eqn:Er; [|done].
      rewrite Forall_lookup in Hpos. specialize (Hpos _ _ Er).
      rewrite Forall_lookup in Hpos. by apply (Hpos c). }
    split; [done|].
    assert (Hn : cell (normalize (data a) 0) r c = Some NaN).
    { unfold normalize. by rewrite cell_gmap2, Hx. }
    split; [done|].
    unfold nd, thresholded, apply_threshold. by rewrite cell_gmap2, Hn. }
  assert (Hnone : ∀ r c, ¬ significant nd r c).
  { intros r c (v & Hv & Hgt).
    destruct (cell (data a) r c) as [x|] eqn:Hx.
    - destruct (Hcells _ _ _ Hx) as (_ & _ & Hnan). by simplify_eq.
    - unfold nd, thresholded, apply_threshold, normalize in Hv.
      rewrite !cell_gmap2, Hx in Hv. done. }
  split; [done|]. split; [|split].
  - rewrite (colorize_run _ _ _ _ _ _ _ Ha Hm).
    apply crop_fallback; [done|]. by apply argwhere_nil.
  - unfold to_image. rewrite gmap2_shape, colour_shape. apply thresholded_shape.
  - intros r c p. rewrite to_image_cell, colour_cell.
    destruct (cell nd r c) as [v|] eqn:Hv; [|done]. simpl. intros [= <-].
    rewrite alpha_byte. destruct (fgt0 v) eqn:Hgt; [|done].
    destruct (Hnone r c). by exists v.
Qed.

Lemma zero_composite_is_transparent_witness :
  let nd := thresholded [[0; 0]; [0; 0]] 0 50 in
  (∀ r c x, cell [[0; 0]; [0; 0]] r c = Some x →
     x = 0 ∧ cell (normalize [[0; 0]; [0; 0]] 0) r c = Some NaN
     ∧ cell nd r c = Some NaN)
  ∧ colorize 1%positive sample_ramp 2%positive 50
      (mkState (<[1%positive := mkDataArray [[0; 0]; [0; 0]] sample_bounds]>
                (<[2%positive := mkDataArray [[0; 0]; [0; 0]] sample_bounds]> ∅))
               ∅ ∅) =
      (Returned (colour sample_ramp nd,
                 ((qc 58 1, qc 24 1), (qc 56 1, qc 26 1))),
       mkState (<[1%positive := mkDataArray [[0; 0]; [0; 0]] sample_bounds]>
                (<[2%positive := mkDataArray [[0; 0]; [0; 0]] sample_bounds]> ∅))
               ∅ ∅)
  ∧ length <$> to_image (colour sample_ramp nd) = length <$> [[0; 0]; [0; 0]]
  ∧ ∀ r c p, cell (to_image (colour sample_ramp nd)) r c = Some p → a8 p = 0%Z.
Proof.
  apply (zero_composite_is_transparent 1%positive sample_ramp 2%positive 50
           (mkState (<[1%positive := mkDataArray [[0; 0]; [0; 0]] sample_bounds]>
                     (<[2%positive := mkDataArray [[0; 0]; [0; 0]] sample_bounds]> ∅))
                    ∅ ∅)
           (mkDataArray [[0; 0]; [0; 0]] sample_bounds)
           (mkDataArray [[0; 0]; [0; 0]] sample_bounds)).
  - by_evaluation.
  - by_evaluation.
  - by_evaluation.
  - by_evaluation.
Defined.

(** C1 as stated fails on the normalised grid: the composite of the factor A
    selected both ways is all zero, its maximum is 0, and the normalised
    grid is all NaN, not the grid unchanged. *)
Lemma zero_composite_normalises_to_nan :
  (let r := composite sample_catalog sample_base (Some ["A"]) (Some ["A"])
              sample_state in
   match returned r with
   | Some A => data <$> heap r.2 !! A
   | None => None
   end) = Some [[0; 0]; [0; 0]]
  ∧ grid_max [[0; 0]; [0; 0]] = Some 0
  ∧ normalize [[0; 0]; [0; 0]] 0 = [[NaN; NaN]; [NaN; NaN]]
  ∧ normalize [[0; 0]; [0; 0]] 0 ≠ gmap2 Fin [[0; 0]; [0; 0]].
Proof. repeat split; by_evaluation. Qed.



(** C4: when both factor selections are empty ([None] or the empty list),
    [update_map] returns at once the empty image URL, the default bounds
    [[56.0, 24.0], [58.0, 26.0]], the opacity passed in and the text
    "No factors selected."; the world is unchanged: no object is allocated
    and no file written, so composite and colorize are bypassed. *)
Theorem no_selection_short_circuit
    (data_list : list FactorEntry) (base_raster : positive)
    (jet : float64 → pixel) (pos_factors neg_factors : option (list string))
    (transparency : Qc) (data_threshold : Z) (now : datetime) (s : State) :
  default [] pos_factors = [] →
  default [] neg_factors = [] →
  update_map data_list base_raster jet pos_factors neg_factors
             transparency data_threshold now s =
    (Returned (mkOutputs "" ((Qc_of_Z 56, Qc_of_Z 24), (Qc_of_Z 58, Qc_of_Z 26))
                         transparency "No factors selected."),
     s).
Proof.
  intros Hp Hn. unfold update_map.
  by destruct pos_factors as [[|]|], neg_factors as [[|]|].
Qed.

Lemma no_selection_short_circuit_witness :
  update_map sample_catalog sample_base sample_ramp (Some []) None
             (qc 1 2) 30 sample_time sample_state =
    (Returned (mkOutputs "" ((Qc_of_Z 56, Qc_of_Z 24), (Qc_of_Z 58, Qc_of_Z 26))
                         (qc 1 2) "No factors selected."),
     sample_state).
Proof.
  apply (no_selection_short_circuit sample_catalog sample_base sample_ramp
           (Some []) None (qc 1 2) 30 sample_time sample_state);
    reflexivity.
Defined.

Lemma zero_where_ge0_cell raw r c w :
  cell raw r c = Some w →
  ∃ b, cell (zero_where_ge0 raw) r c = Some b
       ∧ (0 ≤ w → b = 0) ∧ (w < 0 → b = w).
Proof.
  intros Hw. unfold zero_where_ge0. rewrite cell_gmap2, Hw. simpl.
  eexists. split; [reflexivity|]. unfold Qc_leb.
  case_bool_decide as Hle; split; try done.
  intros Hlt. by destruct (Qclt_not_le _ _ Hlt).
Qed.

(** C3 (as amended): for every selection of k >= 1 positive factors and no
    negative factor, all resolving to layers of the shape of the base,
    [composite] returns and its grid is, at every pixel,
    (b + sum of the k layers) / k with negative results set to 0, where b is
    the cell of the base raster as masked at load time: 0 where the file
    holds a value >= 0, the file's value where that is negative.  Where
    the base file is non-negative the composite is the clamped average of the
    layers alone. *)
Theorem positive_factors_average
    (data_list : list FactorEntry) (base_raster : positive) (s : State)
    (raw : grid) (base : DataArray)
    (pos_factors neg_factors : option (list string)) (layers : list DataArray) :
  heap s !! base_raster = Some base →
  data base = zero_where_ge0 raw →
  default [] pos_factors ≠ [] →
  default [] neg_factors = [] →
  Forall2 (resolves_to data_list (layers_dir s) (data base))
          (default [] pos_factors) layers →
  ∃ A a s',
    composite data_list base_raster pos_factors neg_factors s = (Returned A, s')
    ∧ heap s' !! A = Some a
    ∧ length <$> data a = length <$> raw
    ∧ ∀ r c w, cell raw r c = Some w →
        ∃ b xs,
          cell (data base) r c = Some b
          ∧ (0 ≤ w → b = 0) ∧ (w < 0 → b = w)
          ∧ Forall2 (λ (B : DataArray) x, cell (data B) r c = Some x) layers xs
          ∧ cell (data a) r c =
              Some (Qc_max 0 ((b + total xs) / Qc_of_nat (length layers)))
          ∧ (0 ≤ w →
             cell (data a) r c =
               Some (Qc_max 0 (total xs / Qc_of_nat (length layers)))).
Proof.
  intros Hb Hraw Hk Hneg Hres.
  assert (Hlen : (0 < length layers + length (@nil DataArray))%nat).
  { rewrite <- (list.Forall2_length _ _ _ Hres).
    destruct (default [] pos_factors); [done | simpl; lia]. }
  destruct (composite_cells data_list base_raster s base pos_factors
              neg_factors layers [] Hb Hres) as (a & s' & Hrun & Ha & _ & _ & Hsh & Hcells);
    [by rewrite Hneg | done |].
  exists (fresh (dom (heap s))), a, s'. do 2 (split; [done|]). split.
  { rewrite Hsh, Hraw. unfold zero_where_ge0. by rewrite gmap2_shape. }
  intros r c w Hw.
  destruct (zero_where_ge0_cell _ _ _ _ Hw) as (b & Hbc & H0 & H1).
  rewrite <- Hraw in Hbc.
  destruct (Hcells r c b Hbc) as (xs & ys & Hxs & Hys & Hcell).
  inversion Hys; subst. cbn [length] in Hcell. rewrite Nat.add_0_r in Hcell.
  assert (E : b + total xs - total [] = b + total xs)
    by (unfold total; simpl; ring).
  rewrite E in Hcell.
  exists b, xs. do 4 (split; [done|]). split; [done|].
  intros Hw0. rewrite Hcell, (H0 Hw0). by rewrite Qcplus_0_l.
Qed.

Lemma positive_factors_average_witness :
  ∃ A a s',
    composite sample_catalog sample_base (Some ["A"; "B"]) None sample_state
      = (Returned A, s')
    ∧ heap s' !! A = Some a
    ∧ cell (data a) 0 1 = Some (qc 5 2) ∧ cell (data a) 1 0 = Some (qc 4 1).
Proof.
  destruct (positive_factors_average sample_catalog sample_base sample_state
              [[qc 3 1; qc (-1) 1]; [0; qc 5 1]]
              (mkDataArray [[0; qc (-1) 1]; [0; 0]] sample_bounds)
              (Some ["A"; "B"]) None
              [mkDataArray [[qc 1 1; qc 3 1]; [qc 2 1; qc 4 1]] sample_bounds;
               mkDataArray [[qc 3 1; qc 3 1]; [qc 6 1; qc 0 1]] sample_bounds])
    as (A & a & s' & Hrun & Ha & _ & Hcells).
  - by_evaluation.
  - by_evaluation.
  - done.
  - done.
  - repeat constructor; by_evaluation.
  - exists A, a, s'. do 2 (split; [done|]). split.
    + destruct (Hcells 0%nat 1%nat (qc (-1) 1) eq_refl)
        as (b & xs & Hb & _ & Hneg & Hxs & Hcell & _).
      rewrite (Hneg ltac:(by_evaluation)) in Hcell.
      inversion Hxs as [|? x1 ? ? H1 Hxs']; subst.
      inversion Hxs' as [|? x2 ? ? H2 Hxs'']; subst.
      inversion Hxs''; subst.
      injection H1 as <-. injection H2 as <-.
      rewrite Hcell. by_evaluation.
    + destruct (Hcells 1%nat 0%nat 0 eq_refl)
        as (b & xs & Hb & _ & _ & Hxs & _ & Hcell).
      inversion Hxs as [|? x1 ? ? H1 Hxs']; subst.
      inversion Hxs' as [|? x2 ? ? H2 Hxs'']; subst.
      inversion Hxs''; subst.
      injection H1 as <-. injection H2 as <-.
      rewrite (Hcell ltac:(by_evaluation)). by_evaluation.
Defined.

(** C3 as stated fails where the base file is negative: with the single
    positive factor A the composite at pixel (0,1) is (-1 + 3)/1 = 2, while
    the average of the layers alone is 3. *)
Lemma positive_average_counts_base :
  composite_cell sample_catalog sample_base (Some ["A"]) None sample_state 0 1
    = Some (qc 2 1)
  ∧ (layers_dir sample_state !! "Layers/a.tif" ≫= λ B, cell (data B) 0 1)
    = Some (qc 3 1)
  ∧ Qc_max 0 (total [qc 3 1] / Qc_of_nat 1) ≠ qc 2 1.
Proof. repeat split; by_evaluation. Qed.




(** ** The description as a function of the selection *)

Lemma append_assoc (s1 s2 s3 : string) : (s1 +:+ s2) +:+ s3 = s1 +:+ s2 +:+ s3.
Proof.
  induction s1 as [|ch s1 IH]; [done|].
  change (String ch ((s1 +:+ s2) +:+ s3) = String ch (s1 +:+ s2 +:+ s3)).
  by rewrite IH.
Qed.

Lemma append_empty_r (s : string) : s +:+ "" = s.
Proof.
  induction s as [|ch s IH]; [done|].
  change (String ch (s +:+ "") = String ch s). by rewrite IH.
Qed.

Section Describe.

Variable data_list : list FactorEntry.

Lemma comments_of_spec factors comments :
  comments_of data_list factors = Returned comments →
  Forall2 (λ f c, Comment <$> catalog_row data_list f = Some c) factors comments.
Proof.
  revert comments. induction factors as [|f factors IH]; intros comments; simpl.
  - intros [= <-]. constructor.
  - destruct (catalog_row data_list f) as [e|] eqn:Ee; [|done].
    destruct (comments_of data_list factors) as [cs|]; [|done].
    intros [= <-]. constructor; [by rewrite Ee | by apply IH].
Qed.

Lemma describe_factors_run factors : ∀ d s,
  describe_factors data_list factors d s =
    (match comments_of data_list factors with
     | Returned comments => Returned (d +:+ listing factors comments)
     | Raised x => Raised x
     end, s).
Proof.
  induction factors as [|f factors IH]; intros d s; simpl.
  - by rewrite append_empty_r.
  - unfold mbind, M_bind. rewrite catalog_lookup_run.
    destruct (catalog_row data_list f) as [e|]; [|done].
    rewrite IH. destruct (comments_of data_list factors) as [cs|]; [|done].
    do 2 f_equal. unfold entry. by rewrite !append_assoc.
Qed.

Lemma section_run (v : option (list string)) (d placeholder : string) s :
  (if truthy v then describe_factors data_list (default [] v) d
   else mret (d +:+ placeholder)) s =
    (match section_body data_list (default [] v) placeholder with
     | Returned body => Returned (d +:+ body)
     | Raised x => Raised x
     end, s).
Proof.
  destruct v as [[|f l]|]; cbn [truthy default from_option id]; try done.
  rewrite describe_factors_run. unfold section_body.
  by destruct (comments_of data_list (f :: l)).
Qed.

Lemma describe_run pos_factors neg_factors s :
  describe data_list pos_factors neg_factors s =
    (description_of data_list (default [] pos_factors) (default [] neg_factors), s).
Proof.
  unfold describe, description_of.
  pose proof (section_run pos_factors POSITIVE_HEADER
                (NONE_SELECTED +:+ "  " +:+ LF) s) as H1.
  destruct (section_body _ (default [] pos_factors) _) as [b1|x].
  - rewrite (bind_returned _ _ _ _ _ H1), section_run.
    destruct (section_body _ (default [] neg_factors) _) as [b2|x]; [|done].
    by rewrite !append_assoc.
  - by rewrite (bind_raised _ _ _ _ _ H1).
Qed.

End Describe.

(** ** What one request reads and writes *)

Section Request.

Variable data_list : list FactorEntry.
Variable base_raster : positive.
Variable jet : float64 → pixel.

Lemma colorize_state A t s : (colorize base_raster jet A t s).2 = s.
Proof.
  unfold colorize, crop_to_significant, pydiv, mbind, M_bind, get_object,
    raise, mret, M_ret.
  repeat (case_match; simplify_eq/=; try done).
Qed.

Lemma get_object_none s l :
  heap s !! l = None → get_object l s = (Raised NameError, s).
Proof. intros E. unfold get_object. by rewrite E. Qed.

Lemma crop_agree A1 A2 nd rgba s1 s2 a1 a2 :
  heap s1 !! A1 = Some a1 →
  heap s2 !! A2 = Some a2 →
  data a1 = data a2 →
  heap s1 !! base_raster = heap s2 !! base_raster →
  (crop_to_significant base_raster A1 nd rgba s1).1 =
  (crop_to_significant base_raster A2 nd rgba s2).1.
Proof.
  intros H1 H2 Hd HB. unfold crop_to_significant.
  destruct (heap s1 !! base_raster) as [base|] eqn:Hb1; symmetry in HB.
  - case_bool_decide.
    + rewrite !(bind_returned _ _ _ _ _ (get_object_some _ _ _ Hb1)).
      rewrite !(bind_returned _ _ _ _ _ (get_object_some _ _ _ HB)).
      rewrite (bind_returned _ _ _ _ _ (get_object_some _ _ _ H1)).
      rewrite (bind_returned _ _ _ _ _ (get_object_some _ _ _ H2)).
      rewrite Hd. unfold pydiv, mbind, M_bind, raise, mret, M_ret.
      by repeat case_bool_decide.
    + rewrite !(bind_returned _ _ _ _ _ (get_object_some _ _ _ Hb1)).
      by rewrite !(bind_returned _ _ _ _ _ (get_object_some _ _ _ HB)).
  - case_bool_decide.
    + rewrite !(bind_raised _ _ _ _ _ (get_object_none _ _ Hb1)).
      by rewrite !(bind_raised _ _ _ _ _ (get_object_none _ _ HB)).
    + rewrite !(bind_raised _ _ _ _ _ (get_object_none _ _ Hb1)).
      by rewrite !(bind_raised _ _ _ _ _ (get_object_none _ _ HB)).
Qed.

(** [colorize] reads the grid of [A] and the object [base_raster] only *)
Lemma colorize_agree A1 A2 t s1 s2 a1 a2 :
  heap s1 !! A1 = Some a1 →
  heap s2 !! A2 = Some a2 →
  data a1 = data a2 →
  heap s1 !! base_raster = heap s2 !! base_raster →
  (colorize base_raster jet A1 t s1).1 = (colorize base_raster jet A2 t s2).1.
Proof.
  intros H1 H2 Hd HB.
  destruct (grid_max (data a1)) as [m|] eqn:Hm.
  - rewrite (colorize_run _ _ _ _ _ _ _ H1 Hm).
    rewrite Hd in Hm. rewrite (colorize_run _ _ _ _ _ _ _ H2 Hm).
    rewrite Hd. by eapply crop_agree.
  - rewrite (colorize_empty _ _ _ _ _ _ H1 Hm).
    rewrite Hd in Hm. by rewrite (colorize_empty _ _ _ _ _ _ H2 Hm).
Qed.

Lemma update_map_respond pos neg transparency t now s base :
  heap s !! base_raster = Some base →
  nothing_selected pos neg = false →
  ∃ h',
    h' !! base_raster = Some base
    ∧ update_map data_list base_raster jet pos neg transparency t now s =
        ((respond data_list base_raster jet base (layers_dir s) pos neg transparency t now).1,
         write_image (respond data_list base_raster jet base (layers_dir s) pos neg transparency t now).2
                     (with_heap s h')).
Proof.
  intros Hb Hsel.
  destruct (composite_run data_list base_raster pos neg s base Hb)
    as (g' & Hrun & Hg').
  pose proof (fresh_heap_ne _ _ _ Hb) as Hne.
  eexists. split; [|unfold update_map, respond].
  2: { unfold nothing_selected in Hsel. rewrite Hsel.
    destruct (composite_grid _ _ _ _ _) as [G|e].
    - rewrite (bind_returned _ _ _ _ _ Hrun).
      specialize (Hg' G eq_refl) as ->.
      set (A := fresh (dom (heap s))).
      set (s1 := with_heap s _).
      pose proof (colorize_state A t s1) as Hst.
      assert (Hc : (colorize base_raster jet A t s1).1 = colorize_of base_raster jet base G t).
      { unfold colorize_of. eapply colorize_agree.
        - unfold s1. simpl. apply lookup_insert_eq.
        - simpl. apply lookup_insert_eq.
        - done.
        - unfold s1. simpl. rewrite !lookup_insert_ne.
          + by rewrite Hb, lookup_singleton_eq.
          + eapply fresh_heap_ne. apply lookup_singleton_eq.
          + done. }
      destruct (colorize base_raster jet A t s1) as [[[rgba bnds]|e] s1'] eqn:Ec;
        simpl in Hst, Hc; subst s1'; rewrite <- Hc.
      + rewrite (bind_returned _ _ _ _ _ Ec). cbn [fst snd].
        unfold mbind at 1, M_bind at 1, save_image.
        unfold mbind, M_bind. rewrite describe_run.
        by destruct (description_of _ _ _).
      + by rewrite (bind_raised _ _ _ _ _ Ec).
    - by rewrite (bind_raised _ _ _ _ _ Hrun). }
  simpl. by rewrite lookup_insert_ne.
Qed.

Lemma update_map_no_base pos neg transparency t now s :
  heap s !! base_raster = None →
  nothing_selected pos neg = false →
  update_map data_list base_raster jet pos neg transparency t now s =
    (Raised NameError, s).
Proof.
  intros Hb Hsel. unfold update_map. unfold nothing_selected in Hsel.
  rewrite Hsel.
  by rewrite (bind_raised _ _ _ _ _ (composite_no_base _ _ _ _ _ Hb)).
Qed.

Lemma update_map_nothing pos neg transparency t now s :
  nothing_selected pos neg = true →
  update_map data_list base_raster jet pos neg transparency t now s =
    (Returned (mkOutputs "" ((Qc_of_Z 56, Qc_of_Z 24), (Qc_of_Z 58, Qc_of_Z 26))
                         transparency "No factors selected."), s).
Proof.
  intros Hsel. unfold update_map. unfold nothing_selected in Hsel.
  by rewrite Hsel.
Qed.

(** a request leaves the base raster and the layer files as they were *)
Lemma update_map_frame pos neg transparency t now s :
  let s' := (update_map data_list base_raster jet pos neg transparency t now s).2 in
  heap s' !! base_raster = heap s !! base_raster
  ∧ layers_dir s' = layers_dir s.
Proof.
  cbv zeta.
  destruct (nothing_selected pos neg) eqn:Hsel.
  { by rewrite update_map_nothing. }
  destruct (heap s !! base_raster) as [base|] eqn:Hb; last first.
  { rewrite update_map_no_base by done. simpl. by rewrite Hb. }
  destruct (update_map_respond pos neg transparency t now s base Hb Hsel)
    as (h' & Hh' & ->).
  by destruct (respond _ _ _ _ _ _ _ _ _ _).2.
Qed.

(** the outputs of a request with a selection are those of its stages: the
    bounds are the ones [colorize] returns for the composite, and the image
    saved is the one it returns, converted to bytes *)
Lemma update_map_stages pos neg transparency t now s o s' :
  nothing_selected pos neg = false →
  update_map data_list base_raster jet pos neg transparency t now s
    = (Returned o, s') →
  ∃ A s1 rgba,
    composite data_list base_raster pos neg s = (Returned A, s1)
    ∧ colorize base_raster jet A t s1 = (Returned (rgba, out_bounds o), s1)
    ∧ static_dir s' !! output_path = Some (to_image rgba)
    ∧ opacity o = transparency
    ∧ image_url o = url_at now.
Proof.
  intros Hsel Hrun. unfold update_map in Hrun.
  unfold nothing_selected in Hsel. rewrite Hsel in Hrun.
  apply bind_inv in Hrun as (A & s1 & Hcomp & Hrun).
  apply bind_inv in Hrun as ([rgba bnds] & s1' & Hcol & Hrun).
  pose proof (colorize_state A t s1) as Hst. rewrite Hcol in Hst.
  simpl in Hst. subst s1'.
  apply bind_inv in Hrun as ([] & s2 & Hsave & Hrun).
  apply bind_inv in Hrun as (d & s3 & Hdesc & Hrun).
  rewrite describe_run in Hdesc. injection Hdesc as _ <-.
  injection Hrun as <- <-. injection Hsave as <-.
  exists A, s1, rgba. do 2 (split; [done|]). simpl.
  split; [apply lookup_insert_eq | done].
Qed.

End Request.

(** ** The base raster across requests *)

(** C10: [composite] works on a new object, a copy of the base raster that
    is distinct from it, and no request writes to the base raster: after
    any sequence of requests the object [base_raster] holds the grid and the
    bounds it held before, and so do the layer files. *)
Theorem base_raster_unchanged
    (data_list : list FactorEntry) (base_raster : positive)
    (jet : float64 → pixel) :
  (∀ s pos_factors neg_factors A s',
     composite data_list base_raster pos_factors neg_factors s = (Returned A, s') →
     heap s !! A = None ∧ A ≠ base_raster ∧ is_Some (heap s' !! A)
     ∧ heap s' !! base_raster = heap s !! base_raster)
  ∧ (∀ requests s,
       heap (serve data_list base_raster jet requests s) !! base_raster
         = heap s !! base_raster
       ∧ layers_dir (serve data_list base_raster jet requests s) = layers_dir s).
Proof.
  split.
  - intros s pos neg A s' Hrun.
    destruct (heap s !! base_raster) as [base|] eqn:Hb; last first.
    { by rewrite composite_no_base in Hrun. }
    destruct (composite_run data_list base_raster pos neg s base Hb)
      as (g' & Hrun' & _).
    rewrite Hrun in Hrun'.
    destruct (composite_grid _ _ _ _ _); [|done].
    injection Hrun' as -> ->.
    pose proof (fresh_heap_ne _ _ _ Hb) as Hne.
    split; [|split; [done|split]].
    + apply not_elem_of_dom, is_fresh.
    + simpl. rewrite lookup_insert_eq. eauto.
    + simpl. by rewrite lookup_insert_ne.
  - intros requests. induction requests as [|q requests IH]; intros s; [done|].
    simpl. destruct (IH ((handle data_list base_raster jet q s).2)) as [-> ->].
    apply update_map_frame.
Qed.

Lemma base_raster_unchanged_witness :
  heap (serve sample_catalog sample_base sample_ramp
          [mkRequest (Some ["A"]) None (qc 1 2) 50 sample_time;
           mkRequest (Some ["B"]) (Some ["A"]) (qc 1 2) 0 sample_time]
          sample_state) !! sample_base
  = heap sample_state !! sample_base
  ∧ ∃ A, (composite sample_catalog sample_base (Some ["A"]) None sample_state).1
         = Returned A ∧ A ≠ sample_base.
Proof.
  split.
  - apply (proj2 (base_raster_unchanged sample_catalog sample_base sample_ramp)).
  - destruct (composite sample_catalog sample_base (Some ["A"]) None sample_state)
      as [[A|e] s'] eqn:Hrun.
    + exists A. split; [done|].
      apply (proj1 (base_raster_unchanged sample_catalog sample_base sample_ramp)
               sample_state (Some ["A"]) None A s' Hrun).
    + exfalso. apply (f_equal fst) in Hrun. revert Hrun.
      assert (H : (composite sample_catalog sample_base (Some ["A"]) None
                     sample_state).1 = Returned 2%positive) by by_evaluation.
      rewrite H. done.
Defined.

(** ** The freshness token *)

Lemma digit_inj a b : digit a = digit b → (a mod 10 = b mod 10)%N.
Proof.
  unfold digit. intros H. apply (f_equal N_of_ascii) in H.
  pose proof (N.mod_upper_bound a 10). pose proof (N.mod_upper_bound b 10).
  rewrite !N_ascii_embedding in H by lia. lia.
Qed.

Lemma decimal_step (a b : N) :
  (a mod 10 = b mod 10)%N → (a / 10 = b / 10)%N → a = b.
Proof.
  intros Hm Hd. rewrite (N.div_mod' a 10), (N.div_mod' b 10). by rewrite Hm, Hd.
Qed.

Lemma leading_digit (a k : N) : (a < 10 * k)%N → ((a / k) mod 10 = a / k)%N.
Proof.
  intros H. apply N.mod_small.
  destruct (decide (k = 0%N)) as [->|Hk]; [lia|].
  apply N.Div0.div_lt_upper_bound. lia.
Qed.

Lemma zfill2_inj a b :
  (a < 100)%N → (b < 100)%N → zfill2 a = zfill2 b → a = b.
Proof.
  intros Ha Hb H. unfold zfill2 in H.
  assert (H1 : digit (a / 10) = digit (b / 10)) by congruence.
  assert (H2 : digit a = digit b) by congruence.
  apply digit_inj in H1, H2. clear H.
  rewrite !leading_digit in H1 by lia.
  by apply decimal_step.
Qed.

Lemma zfill4_inj a b :
  (a < 10000)%N → (b < 10000)%N → zfill4 a = zfill4 b → a = b.
Proof.
  intros Ha Hb H. unfold zfill4, zfill2 in H.
  assert (H1 : digit (a / 1000) = digit (b / 1000)) by congruence.
  assert (H2 : digit (a / 100) = digit (b / 100)) by congruence.
  assert (H3 : digit (a / 10) = digit (b / 10)) by congruence.
  assert (H4 : digit a = digit b) by congruence.
  apply digit_inj in H1, H2, H3, H4. clear H.
  rewrite !leading_digit in H1 by lia.
  apply decimal_step; [done|].
  apply decimal_step; [done|]. rewrite !N.Div0.div_div.
  apply decimal_step; [done|]. by rewrite !N.Div0.div_div.
Qed.

Lemma strftime_inj d1 d2 :
  valid_datetime d1 → valid_datetime d2 →
  strftime d1 = strftime d2 → to_second d1 = to_second d2.
Proof.
  intros (Y1 & M1 & D1 & h1 & m1 & s1) (Y2 & M2 & D2 & h2 & m2 & s2).
  unfold strftime, to_second. cbv [zfill4 zfill2 String.append].
  intros [= ? ? ? ? ? ? ? ? ? ? ? ? ? ?].
  rewrite (zfill4_inj (year d1) (year d2)),
          (zfill2_inj (month d1) (month d2)), (zfill2_inj (day d1) (day d2)),
          (zfill2_inj (hour d1) (hour d2)), (zfill2_inj (minute d1) (minute d2)),
          (zfill2_inj (second d1) (second d2));
    try done; unfold zfill4, zfill2; congruence.
Qed.

Lemma strftime_to_second d1 d2 :
  to_second d1 = to_second d2 → strftime d1 = strftime d2.
Proof. unfold to_second, strftime. by intros [= -> -> -> -> -> ->]. Qed.

Lemma url_differs now1 now2 :
  valid_datetime now1 → valid_datetime now2 →
  url_at now1 ≠ url_at now2 ↔ to_second now1 ≠ to_second now2.
Proof.
  intros V1 V2. unfold url_at. split.
  - intros Hne E. apply Hne. by rewrite (strftime_to_second _ _ E).
  - intros Hne E. apply Hne. apply strftime_inj; [done..|].
    by do 3 apply String.app_inj in E.
Qed.

(** C7 (as amended): a request repeated on unchanged layer files has the same
    outcome: if the first run raises, the second raises the same exception;
    if it returns, the second returns the same bounds, opacity and
    description and writes the same RGBA image.  With a selection, the URL
    carries the clock reading formatted down to whole seconds, so the two
    URLs differ exactly when the two calls fall in different seconds; with
    nothing selected both URLs are empty. *)
Theorem repeated_request
    (data_list : list FactorEntry) (base_raster : positive)
    (jet : float64 → pixel) (pos_factors neg_factors : option (list string))
    (transparency : Qc) (data_threshold : Z) (now1 now2 : datetime) (s : State) :
  let r1 := update_map data_list base_raster jet pos_factors neg_factors
              transparency data_threshold now1 s in
  let r2 := update_map data_list base_raster jet pos_factors neg_factors
              transparency data_threshold now2 r1.2 in
  (∀ e, r1.1 = Raised e → r2.1 = Raised e)
  ∧ (∀ o1, r1.1 = Returned o1 →
       ∃ o2, r2.1 = Returned o2
         ∧ out_bounds o2 = out_bounds o1
         ∧ opacity o2 = opacity o1
         ∧ description o2 = description o1
         ∧ static_dir r2.2 = static_dir r1.2
         ∧ (nothing_selected pos_factors neg_factors = false →
            is_Some (static_dir r1.2 !! output_path)
            ∧ image_url o1 = url_at now1 ∧ image_url o2 = url_at now2
            ∧ (valid_datetime now1 → valid_datetime now2 →
               image_url o1 ≠ image_url o2 ↔ to_second now1 ≠ to_second now2))
         ∧ (nothing_selected pos_factors neg_factors = true →
            image_url o1 = "" ∧ image_url o2 = "")).
Proof.
  cbv zeta.
  destruct (nothing_selected pos_factors neg_factors) eqn:Hsel.
  { rewrite !update_map_nothing by done. simpl.
    split; [done|]. intros o1 [= <-]. eexists. split; [done|]. by simpl. }
  destruct (heap s !! base_raster) as [base|] eqn:Hb; last first.
  { rewrite (update_map_no_base _ _ _ _ _ _ _ now1 s Hb Hsel). simpl.
    rewrite (update_map_no_base _ _ _ _ _ _ _ now2 s Hb Hsel). simpl.
    split; [by intros e [= <-] | done]. }
  destruct (update_map_respond data_list base_raster jet pos_factors neg_factors
              transparency data_threshold now1 s base Hb Hsel)
    as (h1 & Hh1 & ->).
  cbn [fst snd].
  set (s1 := write_image _ (with_heap s h1)).
  assert (Hb1 : heap s1 !! base_raster = Some base).
  { unfold s1. by destruct (respond _ _ _ _ _ _ _ _ _ _).2. }
  assert (Hl1 : layers_dir s1 = layers_dir s).
  { unfold s1. by destruct (respond _ _ _ _ _ _ _ _ _ _).2. }
  destruct (update_map_respond data_list base_raster jet pos_factors neg_factors
              transparency data_threshold now2 s1 base Hb1 Hsel)
    as (h2 & Hh2 & ->).
  cbn [fst snd]. rewrite Hl1. unfold s1. clear s1 Hb1 Hl1.
  unfold respond.
  destruct (composite_grid _ _ _ _ _) as [G|e]; [|by split; [intros ? [= <-]|]].
  destruct (colorize_of _ _ _ _ _) as [[rgba bnds]|e];
    [|by split; [intros ? [= <-]|]].
  destruct (description_of _ _ _) as [d|e]; [|by split; [intros ? [= <-]|]].
  cbn [fst snd write_image static_dir with_heap].
  split; [done|]. intros o1 [= <-]. eexists. split; [done|]. cbn.
  do 3 (split; [done|]). split; [by rewrite insert_insert_eq|].
  split; [|done]. intros _. split; [by rewrite lookup_insert_eq|].
  do 2 (split; [done|]). apply url_differs.
Qed.

Lemma repeated_request_witness :
  let q now := update_map sample_catalog sample_base sample_ramp
                 (Some ["A"]) (Some ["B"]) (qc 1 2) 50 now in
  let r1 := q (mkDatetime 2025 3 14 15 9 26 535) sample_state in
  let r2 := q (mkDatetime 2025 3 14 15 9 27 12) r1.2 in
  ∃ o1 o2, r1.1 = Returned o1 ∧ r2.1 = Returned o2
    ∧ out_bounds o2 = out_bounds o1
    ∧ static_dir r2.2 = static_dir r1.2
    ∧ image_url o1 ≠ image_url o2.
Proof.
  intros q r1 r2.
  destruct (repeated_request sample_catalog sample_base sample_ramp
              (Some ["A"]) (Some ["B"]) (qc 1 2) 50
              (mkDatetime 2025 3 14 15 9 26 535)
              (mkDatetime 2025 3 14 15 9 27 12) sample_state) as [_ H].
  assert (E : ∃ o1, r1.1 = Returned o1).
  { assert (Hr : is_Some (returned r1)) by by_evaluation.
    unfold returned in Hr. destruct (r1.1) as [o|]; [by exists o|].
    by destruct Hr. }
  destruct E as [o1 E].
  destruct (H o1 E) as (o2 & E2 & Hbnd & _ & _ & Hst & Hurl & _).
  exists o1, o2. do 4 (split; [done|]).
  destruct (Hurl eq_refl) as (_ & _ & _ & Hdiff).
  apply Hdiff; [unfold valid_datetime; simpl; lia.. | done].
Defined.

(** C7 as stated fails on the URLs: two calls within the same second (the
    clock readings differ in the microseconds only) return the same URL. *)
Lemma same_second_same_url :
  let q now := update_map sample_catalog sample_base sample_ramp
                 (Some ["A"]) (Some ["B"]) (qc 1 2) 50 now in
  let r1 := q (mkDatetime 2025 3 14 15 9 26 100000) sample_state in
  let r2 := q (mkDatetime 2025 3 14 15 9 26 900000) r1.2 in
  image_url <$> returned r1 = Some "/static/output_raster.webp?t=20250314150926"
  ∧ image_url <$> returned r2 = Some "/static/output_raster.webp?t=20250314150926"
  ∧ mkDatetime 2025 3 14 15 9 26 100000 ≠ mkDatetime 2025 3 14 15 9 26 900000.
Proof. cbv zeta. split; [by_evaluation | split; [by_evaluation | done]]. Qed.

(** ** The sections of the description *)

Lemma prefix_append (sub post : string) : String.prefix sub (sub +:+ post) = true.
Proof.
  induction sub as [|ch sub IH]; [by destruct post|].
  change (String ch sub +:+ post) with (String ch (sub +:+ post)).
  simpl. by destruct (ascii_dec ch ch).
Qed.

Lemma infix_occurs (sub s : string) : infix_of sub s → occurs sub s = true.
Proof.
  intros (pre & post & ->). induction pre as [|ch pre IH].
  - change ("" +:+ sub +:+ post) with (sub +:+ post).
    assert (U : ∀ s, String.prefix sub s = true → occurs sub s = true).
    { intros [|ch s] Hp; cbn [occurs]; by rewrite Hp. }
    apply U, prefix_append.
  - change (String ch pre +:+ sub +:+ post) with (String ch (pre +:+ sub +:+ post)).
    simpl occurs. rewrite IH. apply orb_true_r.
Qed.

Lemma listing_entry (names comments : list string) i name comment :
  length names = length comments →
  names !! i = Some name → comments !! i = Some comment →
  infix_of (entry name comment) (listing names comments).
Proof.
  revert comments i. induction names as [|n names IH];
    intros [|c comments] i Hlen Hn Hc; try done.
  destruct i as [|i]; simplify_eq/=.
  - exists "", (listing names comments). done.
  - destruct (IH comments i) as (pre & post & E); [done..|].
    exists (entry n c +:+ pre), post. rewrite E. by rewrite !append_assoc.
Qed.

Lemma description_of_sections data_list (pos neg : list string) d :
  description_of data_list pos neg = Returned d →
  ∃ comments_pos comments_neg,
    Forall2 (λ f c, Comment <$> catalog_row data_list f = Some c) pos comments_pos
    ∧ Forall2 (λ f c, Comment <$> catalog_row data_list f = Some c) neg comments_neg
    ∧ d = POSITIVE_HEADER
          +:+ (match pos with
               | [] => NONE_SELECTED +:+ "  " +:+ LF
               | _ => listing pos comments_pos
               end)
          +:+ NEGATIVE_HEADER
          +:+ (match neg with
               | [] => NONE_SELECTED
               | _ => listing neg comments_neg
               end).
Proof.
  unfold description_of, section_body. intros H.
  destruct pos as [|p pos], neg as [|n neg].
  - injection H as <-. exists [], []. by repeat constructor.
  - destruct (comments_of data_list (n :: neg)) as [cn|] eqn:En; [|done].
    injection H as <-. exists [], cn.
    split; [constructor|]. split; [by apply comments_of_spec | done].
  - destruct (comments_of data_list (p :: pos)) as [cp|] eqn:Ep; [|done].
    injection H as <-. exists cp, [].
    split; [by apply comments_of_spec|]. split; [constructor | done].
  - destruct (comments_of data_list (p :: pos)) as [cp|] eqn:Ep; [|done].
    destruct (comments_of data_list (n :: neg)) as [cn|] eqn:En; [|done].
    injection H as <-. exists cp, cn.
    split; [by apply comments_of_spec|]. split; [by apply comments_of_spec | done].
Qed.

(** C8 (as amended): for every pair of selections that is not empty on both
    sides, the description [update_map] returns is the positive header, the
    positive section, the negative header and the negative section; a
    section lists every selected factor, in order, as its name followed by
    its catalogue comment, and a side without selections holds the fixed
    line "- Nav izvēlēts neviens" instead. *)
Theorem description_sections
    (data_list : list FactorEntry) (base_raster : positive)
    (jet : float64 → pixel) (pos_factors neg_factors : option (list string))
    (transparency : Qc) (data_threshold : Z) (now : datetime)
    (s s' : State) (o : Outputs) :
  nothing_selected pos_factors neg_factors = false →
  update_map data_list base_raster jet pos_factors neg_factors
             transparency data_threshold now s = (Returned o, s') →
  ∃ comments_pos comments_neg,
    Forall2 (λ f c, Comment <$> catalog_row data_list f = Some c)
            (default [] pos_factors) comments_pos
    ∧ Forall2 (λ f c, Comment <$> catalog_row data_list f = Some c)
              (default [] neg_factors) comments_neg
    ∧ description o =
        POSITIVE_HEADER
        +:+ (match default [] pos_factors with
             | [] => NONE_SELECTED +:+ "  " +:+ LF
             | _ => listing (default [] pos_factors) comments_pos
             end)
        +:+ NEGATIVE_HEADER
        +:+ (match default [] neg_factors with
             | [] => NONE_SELECTED
             | _ => listing (default [] neg_factors) comments_neg
             end).
Proof.
  intros Hsel Hrun.
  destruct (heap s !! base_raster) as [base|] eqn:Hb; last first.
  { by rewrite update_map_no_base in Hrun. }
  destruct (update_map_respond data_list base_raster jet pos_factors neg_factors
              transparency data_threshold now s base Hb Hsel)
    as (h' & _ & Hrun').
  rewrite Hrun in Hrun'. injection Hrun' as Hout _.
  unfold respond in Hout.
  destruct (composite_grid _ _ _ _ _); [|done].
  destruct (colorize_of _ _ _ _ _) as [[rgba bnds]|]; [|done].
  destruct (description_of _ _ _) as [d|] eqn:Ed; [|done].
  simpl in Hout. injection Hout as ->. simpl.
  by apply description_of_sections.
Qed.

Lemma description_sections_witness :
  ∃ o, returned (update_map sample_catalog sample_base sample_ramp
                   (Some ["A"; "B"]) (Some []) (qc 1 2) 0 sample_time
                   sample_state) = Some o
  ∧ description o =
      POSITIVE_HEADER +:+ listing ["A"; "B"] ["ca"; "cb"]
      +:+ NEGATIVE_HEADER +:+ NONE_SELECTED.
Proof.
  destruct (update_map sample_catalog sample_base sample_ramp
              (Some ["A"; "B"]) (Some []) (qc 1 2) 0 sample_time sample_state)
    as [[o|e] s'] eqn:Hrun.
  - exists o. split; [done|].
    destruct (description_sections sample_catalog sample_base sample_ramp
                (Some ["A"; "B"]) (Some []) (qc 1 2) 0 sample_time
                sample_state s' o eq_refl Hrun) as (cp & cn & Hp & _ & ->).
    simpl in Hp.
    inversion Hp as [|? c1 ? ? H1 Hp']; subst.
    inversion Hp' as [|? c2 ? ? H2 Hp'']; subst.
    inversion Hp''; subst.
    vm_compute in H1, H2. by injection H1 as <-; injection H2 as <-.
  - exfalso. apply (f_equal (λ r, returned r)) in Hrun. revert Hrun.
    assert (H : is_Some (returned (update_map sample_catalog sample_base
                  sample_ramp (Some ["A"; "B"]) (Some []) (qc 1 2) 0
                  sample_time sample_state))) by by_evaluation.
    destruct H as [o ->]. done.
Defined.

(** C8 as stated fails when both selections are empty: the description is
    "No factors selected.", in which neither header nor the placeholder line
    occurs. *)
Lemma no_selection_has_no_sections :
  description <$>
    returned (update_map sample_catalog sample_base sample_ramp
                (Some []) None (qc 1 2) 0 sample_time sample_state)
  = Some "No factors selected."
  ∧ ¬ infix_of POSITIVE_HEADER "No factors selected."
  ∧ ¬ infix_of NEGATIVE_HEADER "No factors selected."
  ∧ ¬ infix_of NONE_SELECTED "No factors selected.".
Proof.
  split; [by_evaluation|].
  repeat split; intros H%infix_occurs; vm_compute in H; discriminate.
Qed.


(** * Further properties of the pipeline *)

(** ** Normalisation and significance *)

Lemma Qcdiv_mult_cancel (a b : Qc) : b ≠ 0 → a / b * b = a.
Proof. intros Hb. rewrite (Qcmult_comm (a / b) b). by apply Qcmult_div_r. Qed.

Lemma Qcdiv_le_iff (a b c : Qc) : 0 < b → a / b ≤ c ↔ a ≤ c * b.
Proof.
  intros Hb. rewrite (Qcmult_le_mono_pos_r (a / b) c b Hb).
  rewrite Qcdiv_mult_cancel; [done|]. intros E. rewrite E in Hb.
  by apply Qclt_not_eq in Hb.
Qed.

Lemma Qcdiv_ge_iff (a b c : Qc) : 0 < b → c ≤ a / b ↔ c * b ≤ a.
Proof.
  intros Hb. rewrite (Qcmult_le_mono_pos_r c (a / b) b Hb).
  rewrite Qcdiv_mult_cancel; [done|]. intros E. rewrite E in Hb.
  by apply Qclt_not_eq in Hb.
Qed.

Lemma Qcdiv_pos_iff (a b : Qc) : 0 < b → 0 < a / b ↔ 0 < a.
Proof.
  intros Hb. rewrite (Qcmult_lt_mono_pos_r 0 (a / b) b Hb).
  rewrite Qcmult_0_l, Qcdiv_mult_cancel; [done|]. intros E. rewrite E in Hb.
  by apply Qclt_not_eq in Hb.
Qed.

Lemma fdiv_finite (x m : Qc) : m ≠ 0 → fdiv x m = Fin (x / m).
Proof. intros Hm. unfold fdiv. by rewrite bool_decide_eq_false_2. Qed.

Lemma threshold_of_mono (t1 t2 : Z) :
  (t1 ≤ t2)%Z → threshold_of t1 ≤ threshold_of t2.
Proof.
  intros H. unfold threshold_of, Qcdiv.
  apply Qcmult_le_mono_nonneg_r; [|by apply (proj1 (Z2Qc_inj_le _ _))].
  apply Qclt_le_weak, Qcinv_pos. rewrite <- Z2Qc_inj_0.
  by apply (proj1 (Z2Qc_inj_lt _ _)).
Qed.


Lemma foldl_max_in xs : ∀ x0, foldl Qc_max x0 xs ∈ x0 :: xs.
Proof.
  induction xs as [|x xs IH]; intros x0; simpl; [by left|].
  specialize (IH (Qc_max x0 x)).
  apply elem_of_cons in IH as [->|IH]; [|by do 2 right].
  unfold Qc_max. destruct (Qc_ltb x0 x); [right|]; by left.
Qed.

Lemma concat_cell {A} (g : list (list A)) x :
  x ∈ concat g → ∃ r c, cell g r c = Some x.
Proof.
  intros (row & Hrow & Hx)%list_elem_of_In%in_concat.
  apply list_elem_of_In, list_elem_of_lookup in Hrow as [r Hr].
  apply list_elem_of_In, list_elem_of_lookup in Hx as [c Hc].
  exists r, c. unfold cell. by rewrite Hr.
Qed.

Lemma grid_max_attained (g : grid) m :
  grid_max g = Some m → ∃ r c, cell g r c = Some m.
Proof.
  unfold grid_max. intros Hm. apply concat_cell.
  destruct (concat g) as [|x0 xs]; [done|]. injection Hm as <-.
  apply foldl_max_in.
Qed.

Lemma thresholded_cell g m t r c :
  cell (thresholded g m t) r c =
    (λ x, if flt (fdiv x m) (threshold_of t) then Fin 0 else fdiv x m)
      <$> cell g r c.
Proof.
  unfold thresholded, apply_threshold, normalize. rewrite !cell_gmap2.
  by destruct (cell g r c).
Qed.

(** a pixel is significant when its quotient is not below the threshold and
    is greater than zero *)
Lemma significant_cases g m t r c :
  significant (thresholded g m t) r c ↔
  ∃ x, cell g r c = Some x
       ∧ flt (fdiv x m) (threshold_of t) = false ∧ fgt0 (fdiv x m) = true.
Proof.
  unfold significant. rewrite thresholded_cell. split.
  - intros (v & Hv & Hgt). destruct (cell g r c) as [x|]; [|done].
    exists x. split; [done|]. simpl in Hv. injection Hv as <-.
    destruct (flt (fdiv x m) _); [|done]. simpl in Hgt.
    apply Qc_ltb_lt in Hgt. by apply Qclt_not_eq in Hgt.
  - intros (x & -> & Hlt & Hgt). simpl. rewrite Hlt. eauto.
Qed.

Lemma significant_positive_max g m t r c :
  0 < m →
  significant (thresholded g m t) r c ↔
  ∃ x, cell g r c = Some x ∧ 0 < x ∧ threshold_of t ≤ x / m.
Proof.
  intros Hm. assert (m ≠ 0) as Hm0.
  { intros E. rewrite E in Hm. by apply Qclt_not_eq in Hm. }
  rewrite significant_cases. split.
  - intros (x & Hx & Hlt & Hgt). exists x. split; [done|].
    rewrite fdiv_finite in Hlt, Hgt by done. simpl in Hlt, Hgt.
    apply Qc_ltb_ge in Hlt. apply Qc_ltb_lt in Hgt.
    split; [by apply (Qcdiv_pos_iff x m)|done].
  - intros (x & Hx & Hpos & Hthr). exists x. split; [done|].
    rewrite fdiv_finite by done. simpl. split.
    + by apply Qc_ltb_ge.
    + by apply Qc_ltb_lt, Qcdiv_pos_iff.
Qed.

(** X2: for a grid without negative cells whose maximum is positive, every
    normalised value is a finite number between 0 and 1, and the pixels that
    hold the maximum normalise to exactly 1. *)
Theorem normalized_in_unit_interval (g : grid) (m : Qc) :
  grid_max g = Some m →
  0 < m →
  Forall (Forall (λ x, 0 ≤ x)) g →
  (∀ r c x, cell g r c = Some x →
     ∃ q, cell (normalize g m) r c = Some (Fin q) ∧ 0 ≤ q ∧ q ≤ 1)
  ∧ (∃ r c, cell g r c = Some m ∧ cell (normalize g m) r c = Some (Fin 1)).
Proof.
  intros Hmax Hm Hpos.
  assert (m ≠ 0) as Hm0.
  { intros E. rewrite E in Hm. by apply Qclt_not_eq in Hm. }
  split.
  - intros r c x Hx. exists (x / m). unfold normalize.
    rewrite cell_gmap2, Hx. simpl. rewrite fdiv_finite by done.
    split; [done|]. split.
    + apply Qcdiv_ge_iff; [done|]. rewrite Qcmult_0_l.
      unfold cell in Hx. destruct (g !! r) as [row|] eqn:Er; [|done].
      rewrite Forall_lookup in Hpos. specialize (Hpos _ _ Er).
      rewrite Forall_lookup in Hpos. by apply (Hpos c).
    + apply Qcdiv_le_iff; [done|]. rewrite Qcmult_1_l.
      by eapply grid_max_bound.
  - destruct (grid_max_attained g m Hmax) as (r & c & Hc).
    exists r, c. split; [done|]. unfold normalize.
    rewrite cell_gmap2, Hc. simpl. rewrite fdiv_finite by done.
    do 2 f_equal. unfold Qcdiv. by apply Qcmult_inv_r.
Qed.

Lemma normalized_in_unit_interval_witness :
  (∀ r c x, cell scenario_grid r c = Some x →
     ∃ q, cell (normalize scenario_grid (qc 2 1)) r c = Some (Fin q)
          ∧ 0 ≤ q ∧ q ≤ 1)
  ∧ (∃ r c, cell scenario_grid r c = Some (qc 2 1)
            ∧ cell (normalize scenario_grid (qc 2 1)) r c = Some (Fin 1)).
Proof.
  apply (normalized_in_unit_interval scenario_grid (qc 2 1)); by_evaluation.
Defined.





Lemma flt_mono (v : float64) (t1 t2 : Qc) :
  t1 ≤ t2 → flt v t1 = true → flt v t2 = true.
Proof.
  intros Ht. destruct v as [q| | |]; simpl; try done.
  intros Hq%Qc_ltb_lt. apply Qc_ltb_lt. by eapply Qclt_le_trans.
Qed.

(** X5: raising the threshold never makes a pixel significant: a pixel that
    is significant at a threshold is significant at every lower one. *)
Theorem threshold_monotone
    (g : grid) (m : Qc) (t1 t2 : Z) (r c : nat) :
  (t1 ≤ t2)%Z →
  significant (thresholded g m t2) r c →
  significant (thresholded g m t1) r c.
Proof.
  intros Ht (x & Hx & Hlt & Hgt)%significant_cases.
  apply significant_cases. exists x. split; [done|]. split; [|done].
  destruct (flt (fdiv x m) (threshold_of t1)) eqn:E; [|done].
  by rewrite (flt_mono _ _ _ (threshold_of_mono _ _ Ht) E) in Hlt.
Qed.

Lemma threshold_monotone_witness :
  significant (thresholded scenario_grid (qc 2 1) 20) 2 4.
Proof.
  apply (threshold_monotone scenario_grid (qc 2 1) 20 80 2 4); [lia|].
  exists (Fin 1). split; by_evaluation.
Defined.

(** X6: the two ends of the slider.  With a positive maximum, at threshold 0
    the significant pixels are exactly those with a positive value, and at
    threshold 100 exactly those that hold the maximum. *)
Theorem threshold_endpoints (g : grid) (m : Qc) (r c : nat) :
  grid_max g = Some m →
  0 < m →
  (significant (thresholded g m 0) r c ↔ ∃ x, cell g r c = Some x ∧ 0 < x)
  ∧ (significant (thresholded g m 100) r c ↔ cell g r c = Some m).
Proof.
  intros Hmax Hm.
  assert (m ≠ 0) as Hm0.
  { intros E. rewrite E in Hm. by apply Qclt_not_eq in Hm. }
  assert (E0 : threshold_of 0 = 0) by by_evaluation.
  assert (E1 : threshold_of 100 = 1) by by_evaluation.
  split; rewrite significant_positive_max by done.
  - rewrite E0. split.
    + intros (x & Hx & Hpos & _). eauto.
    + intros (x & Hx & Hpos). exists x. do 2 (split; [done|]).
      by apply Qclt_le_weak, Qcdiv_pos_iff.
  - rewrite E1. split.
    + intros (x & Hx & _ & Hge). rewrite Hx. f_equal.
      apply Qcle_antisym; [by eapply grid_max_bound|].
      apply Qcdiv_ge_iff in Hge; [|done]. by rewrite Qcmult_1_l in Hge.
    + intros Hx. exists m. do 2 (split; [done|]).
      apply Qcdiv_ge_iff; [done|]. by rewrite Qcmult_1_l.
Qed.

Lemma threshold_endpoints_witness :
  (significant (thresholded scenario_grid (qc 2 1) 0) 2 3
   ↔ ∃ x, cell scenario_grid 2 3 = Some x ∧ 0 < x)
  ∧ (significant (thresholded scenario_grid (qc 2 1) 100) 2 3
     ↔ cell scenario_grid 2 3 = Some (qc 2 1)).
Proof.
  apply (threshold_endpoints scenario_grid (qc 2 1) 2 3); by_evaluation.
Defined.

(** ** The crop: geometry and content *)

Lemma Qcle_shift (a b c d : Qc) : b - a = d - c → c ≤ d → a ≤ b.
Proof.
  intros E H. apply Qcle_minus_iff. apply Qcle_minus_iff in H.
  unfold Qcminus in E. by rewrite E.
Qed.

















(** ** Requests on a well-formed deployment *)

Lemma same_lengths_shape {A B} (a : list (list A)) (b : list (list B)) :
  length <$> a = length <$> b → shape a = shape b.
Proof.
  intros E. unfold shape. f_equal.
  - apply (f_equal length) in E. by rewrite !length_fmap in E.
  - destruct a, b; simplify_eq/=; done.
Qed.

Lemma same_lengths_rect {A B} (a : list (list A)) (b : list (list B)) :
  length <$> a = length <$> b → rect b → rect a.
Proof.
  intros E Hb. unfold rect in *. rewrite (same_lengths_shape a b E).
  apply Forall_lookup. intros i row Hrow.
  apply (f_equal (.!! i)) in E. rewrite !list_lookup_fmap, Hrow in E.
  destruct (b !! i) as [brow|] eqn:Eb; [|done]. simpl in E.
  injection E as ->. rewrite Forall_lookup in Hb. by apply (Hb i).
Qed.


Lemma truthy_nonempty {A} (v : option (list A)) :
  truthy v = true ↔ default [] v ≠ [].
Proof. by destruct v as [[|]|]. Qed.

Lemma selection_size (pos neg : option (list string)) :
  nothing_selected pos neg = false →
  (0 < length (default [] pos) + length (default [] neg))%nat.
Proof.
  unfold nothing_selected.
  destruct pos as [[|]|], neg as [[|]|]; simpl; try done; lia.
Qed.




(** X1: for every selection whose factors resolve to layers of the shape of
    the base raster, the composite has the shape and the geographic bounds of
    the base raster, and is rectangular when the base raster is. *)
Theorem composite_keeps_shape
    (data_list : list FactorEntry) (base_raster : positive) (s : State)
    (base : DataArray) (pos_factors neg_factors : option (list string))
    (pos_layers neg_layers : list DataArray) :
  heap s !! base_raster = Some base →
  nothing_selected pos_factors neg_factors = false →
  Forall2 (resolves_to data_list (layers_dir s) (data base))
          (default [] pos_factors) pos_layers →
  Forall2 (resolves_to data_list (layers_dir s) (data base))
          (default [] neg_factors) neg_layers →
  ∃ A a s',
    composite data_list base_raster pos_factors neg_factors s = (Returned A, s')
    ∧ heap s' !! A = Some a
    ∧ shape (data a) = shape (data base)
    ∧ length <$> data a = length <$> data base
    ∧ rio_bounds a = rio_bounds base
    ∧ (rect (data base) → rect (data a)).
Proof.
  intros Hb Hsel Hpos Hneg.
  destruct (composite_cells data_list base_raster s base pos_factors
              neg_factors pos_layers neg_layers Hb Hpos Hneg)
    as (a & s' & Hrun & Ha & _ & Hbnd & Hsh & _).
  { rewrite <- (list.Forall2_length _ _ _ Hpos), <- (list.Forall2_length _ _ _ Hneg).
    by apply selection_size. }
  exists (fresh (dom (heap s))), a, s'. do 2 (split; [done|]).
  split; [by apply same_lengths_shape|]. do 2 (split; [done|]).
  by apply same_lengths_rect.
Qed.

Lemma composite_keeps_shape_witness :
  ∃ A a s',
    composite sample_catalog sample_base (Some ["A"]) (Some ["B"]) sample_state
      = (Returned A, s')
    ∧ heap s' !! A = Some a
    ∧ shape (data a) = (2%nat, 2%nat)
    ∧ rio_bounds a = sample_bounds.
Proof.
  destruct (composite_keeps_shape sample_catalog sample_base sample_state
              (mkDataArray [[0; qc (-1) 1]; [0; 0]] sample_bounds)
              (Some ["A"]) (Some ["B"])
              [mkDataArray [[qc 1 1; qc 3 1]; [qc 2 1; qc 4 1]] sample_bounds]
              [mkDataArray [[qc 3 1; qc 3 1]; [qc 6 1; qc 0 1]] sample_bounds])
    as (A & a & s' & Hrun & Ha & Hsh & _ & Hb & _).
  - by_evaluation.
  - done.
  - repeat constructor; by_evaluation.
  - repeat constructor; by_evaluation.
  - exists A, a, s'. by rewrite Hsh, Hb.
Defined.



(** ** Failing requests and the static directory *)





Lemma accumulate_grid_failure data_list files op factor after e before :
  ∀ layers g,
    Forall2 (resolves_to data_list files g) before layers →
    resolve data_list files factor = Raised e →
    accumulate_grid data_list files op g (before ++ factor :: after) = Raised e.
Proof.
  induction before as [|f before IH]; intros layers g H He; simpl.
  - by rewrite He.
  - inversion H as [|? B ? layers' [Hr Hs] Hrest]; subst.
    rewrite Hr, Hs. apply (IH layers'); [|done].
    apply (list.Forall2_impl _ _ _ _ Hrest).
    intros f' B' [Hr' Hs']. split; [done|].
    by apply same_shape_elementwise.
Qed.

Lemma first_failure_nonempty data_list files g factors e :
  first_failure data_list files g factors e → factors ≠ [].
Proof. intros (b & f & a & L & -> & _). by destruct b. Qed.

Lemma resolve_raises data_list files factor e :
  resolve data_list files factor = Raised e →
  e = IndexError ∨ e = RasterioIOError.
Proof.
  unfold resolve. destruct (catalog_row _ _); [|intros [= <-]; by left].
  destruct (files !! _); [done | intros [= <-]; by right].
Qed.

(** X11: the first selected factor that does not resolve decides the error.
    If a positive factor is missing from the catalogue (IndexError) or its
    file is missing (RasterioIOError) while the positive factors before it
    resolve, or all positive factors resolve and the same holds in the
    negative list, the request raises that error and writes no image. *)
Theorem unresolved_factor_raises
    (data_list : list FactorEntry) (base_raster : positive)
    (jet : float64 → pixel) (pos_factors neg_factors : option (list string))
    (transparency : Qc) (data_threshold : Z) (now : datetime) (s : State)
    (base : DataArray) (e : exn) :
  heap s !! base_raster = Some base →
  first_failure data_list (layers_dir s) (data base) (default [] pos_factors) e
  ∨ ((∃ pos_layers,
        Forall2 (resolves_to data_list (layers_dir s) (data base))
                (default [] pos_factors) pos_layers)
     ∧ first_failure data_list (layers_dir s) (data base)
                     (default [] neg_factors) e) →
  ∃ s',
    update_map data_list base_raster jet pos_factors neg_factors
               transparency data_threshold now s = (Raised e, s')
    ∧ static_dir s' = static_dir s
    ∧ heap s' !! base_raster = Some base
    ∧ (e = IndexError ∨ e = RasterioIOError).
Proof.
  intros Hb Hfail.
  assert (Hsel : nothing_selected pos_factors neg_factors = false).
  { unfold nothing_selected.
    destruct Hfail as [H|[_ H]]; apply first_failure_nonempty in H;
      apply truthy_nonempty in H; rewrite H; simpl; [done|].
    apply andb_false_r. }
  assert (Hgrid : composite_grid data_list (layers_dir s) (data base)
                    (default [] pos_factors) (default [] neg_factors) = Raised e
                  ∧ (e = IndexError ∨ e = RasterioIOError)).
  { unfold composite_grid.
    destruct Hfail as [(b & f & a & L & -> & Hres & He)
                      |[[posL Hpos] (b & f & a & L & -> & Hres & He)]].
    - rewrite (accumulate_grid_failure _ _ _ _ _ _ _ _ _ Hres He).
      split; [done | by eapply resolve_raises].
    - rewrite (accumulate_grid_resolved _ _ _ _ _ _ Hpos).
      rewrite (accumulate_grid_failure _ _ Qcminus f a e b L); [|  |done].
      + split; [done | by eapply resolve_raises].
      + apply (list.Forall2_impl _ _ _ _ Hres). apply resolves_to_shape.
        apply foldl_elementwise_shape. by eapply resolves_to_same_shape. }
  destruct Hgrid as [Hgrid He].
  destruct (update_map_respond data_list base_raster jet pos_factors neg_factors
              transparency data_threshold now s base Hb Hsel)
    as (h' & Hh' & ->).
  unfold respond. rewrite Hgrid. simpl. eauto.
Qed.

Lemma unresolved_factor_raises_witness :
  ∃ s',
    update_map sample_catalog sample_base sample_ramp (Some ["A"; "C"; "B"]) None
               (qc 1 2) 0 sample_time sample_state = (Raised IndexError, s')
    ∧ static_dir s' = static_dir sample_state
    ∧ heap s' !! sample_base
      = Some (mkDataArray [[0; qc (-1) 1]; [0; 0]] sample_bounds)
    ∧ (IndexError = IndexError ∨ IndexError = RasterioIOError).
Proof.
  apply (unresolved_factor_raises sample_catalog sample_base sample_ramp
           (Some ["A"; "C"; "B"]) None (qc 1 2) 0 sample_time sample_state
           (mkDataArray [[0; qc (-1) 1]; [0; 0]] sample_bounds) IndexError).
  - by_evaluation.
  - left. exists ["A"], "C", ["B"],
      [mkDataArray [[qc 1 1; qc 3 1]; [qc 2 1; qc 4 1]] sample_bounds].
    split; [done|]. split; [repeat constructor; by_evaluation | by_evaluation].
Defined.

(** ** The catalogue *)

(** X12: every name the dropdowns offer is found in the catalogue: the lookup
    of one of [data_keys] never raises and returns the column of a row of
    that name. *)
Theorem dropdown_key_resolves
    (data_list : list FactorEntry) (column : FactorEntry → string)
    (factor : string) (s : State) :
  factor ∈ data_keys data_list →
  ∃ e, e ∈ data_list ∧ Name e = factor
       ∧ catalog_row data_list factor = Some e
       ∧ catalog_lookup data_list column factor s = (Returned (column e), s).
Proof.
  intros (e0 & He0 & Hin)%list_elem_of_fmap.
  rewrite catalog_lookup_run. unfold catalog_row.
  destruct (filter (λ e, Name e = factor) data_list) as [|e l] eqn:Ef.
  - by destruct (filter_nil_not_elem_of _ _ e0 Ef).
  - assert (He : e ∈ filter (λ e, Name e = factor) data_list)
      by (rewrite Ef; by left).
    apply list_elem_of_filter in He as [Hname He]. by exists e.
Qed.

Lemma dropdown_key_resolves_witness :
  ∃ e, e ∈ sample_catalog ∧ Name e = "B"
       ∧ catalog_row sample_catalog "B" = Some e
       ∧ catalog_lookup sample_catalog Layer "B" sample_state
         = (Returned (Layer e), sample_state).
Proof.
  apply (dropdown_key_resolves sample_catalog Layer "B" sample_state).
  unfold data_keys. simpl. right. left.
Defined.

(** X13: when several rows of the catalogue carry the same name, the first
    one decides: the lookup returns the column of the first row of that
    name, whatever rows follow it. *)
Theorem first_row_wins
    (before after : list FactorEntry) (e : FactorEntry)
    (column : FactorEntry → string) (s : State) :
  Forall (λ x, Name x ≠ Name e) before →
  catalog_lookup (before ++ e :: after) column (Name e) s
    = (Returned (column e), s).
Proof.
  intros Hb. rewrite catalog_lookup_run. unfold catalog_row.
  rewrite list.filter_app.
  assert (filter (λ x, Name x = Name e) before = []) as ->.
  { induction Hb as [|x l Hx _ IH]; [done|].
    by rewrite filter_cons_False. }
  by rewrite filter_cons_True.
Qed.

Lemma first_row_wins_witness :
  catalog_lookup ([mkEntry "A" "a.tif" "ca"]
                  ++ mkEntry "B" "b.tif" "cb" :: [mkEntry "B" "other.tif" "late"])
                 Layer "B" sample_state
  = (Returned "b.tif", sample_state).
Proof.
  apply (first_row_wins [mkEntry "A" "a.tif" "ca"]
           [mkEntry "B" "other.tif" "late"] (mkEntry "B" "b.tif" "cb")
           Layer sample_state).
  repeat constructor. done.
Defined.

(** ** Start-up and the masked base raster *)

(** X14: start-up raises when the base file is missing; otherwise it binds
    [base_raster] to a new object with the bounds and the shape of the file,
    whose cells are the file's where these are negative and 0 elsewhere, so
    that no cell of the base raster is positive; other objects and the files
    are untouched. *)
Theorem startup_masks_base (s : State) :
  (layers_dir s !! BASE_PATH = None → startup s = (Raised RasterioIOError, s))
  ∧ (∀ file, layers_dir s !! BASE_PATH = Some file →
       ∃ base_raster base s',
         startup s = (Returned base_raster, s')
         ∧ heap s !! base_raster = None
         ∧ heap s' !! base_raster = Some base
         ∧ (∀ l, l ≠ base_raster → heap s' !! l = heap s !! l)
         ∧ layers_dir s' = layers_dir s ∧ static_dir s' = static_dir s
         ∧ rio_bounds base = rio_bounds file
         ∧ length <$> data base = length <$> data file
         ∧ ∀ r c w, cell (data file) r c = Some w →
             ∃ b, cell (data base) r c = Some b
                  ∧ b ≤ 0 ∧ (0 ≤ w → b = 0) ∧ (w < 0 → b = w)).
Proof.
  split.
  - intros E. unfold startup, load_raster, mbind, M_bind. by rewrite E.
  - intros file E.
    eexists (fresh (dom (heap s))), _, _. split.
    { unfold startup, load_raster, new_object, mbind, M_bind. rewrite E.
      reflexivity. }
    simpl. split; [apply not_elem_of_dom, is_fresh|].
    split; [apply lookup_insert_eq|].
    split; [by intros l Hl; rewrite lookup_insert_ne|].
    do 3 (split; [done|]). simpl.
    split; [unfold zero_where_ge0; by rewrite gmap2_shape|].
    intros r c w Hw.
    destruct (zero_where_ge0_cell _ _ _ _ Hw) as (b & Hb & H0 & H1).
    exists b. split; [done|]. split; [|done].
    destruct (Qclt_le_dec w 0) as [Hneg|Hpos].
    + rewrite (H1 Hneg). by apply Qclt_le_weak.
    + by rewrite (H0 Hpos).
Qed.

Lemma startup_masks_base_witness :
  ∃ base_raster base s',
    startup sample_disk = (Returned base_raster, s')
    ∧ heap s' !! base_raster = Some base
    ∧ ∃ b, cell (data base) 0 0 = Some b ∧ b ≤ 0.
Proof.
  destruct (proj2 (startup_masks_base sample_disk)
              (mkDataArray [[qc 3 1; qc (-1) 1]; [0; qc 5 1]] sample_bounds))
    as (l & base & s' & Hrun & _ & Hl & _ & _ & _ & _ & _ & Hcells).
  - by_evaluation.
  - exists l, base, s'. do 2 (split; [done|]).
    destruct (Hcells 0%nat 0%nat (qc 3 1) eq_refl) as (b & Hb & Hle & _).
    by exists b.
Defined.

Lemma masked_nonpositive (raw : grid) r c b :
  cell (zero_where_ge0 raw) r c = Some b → b ≤ 0.
Proof.
  unfold zero_where_ge0. rewrite cell_gmap2.
  destruct (cell raw r c) as [w|]; [|done]. simpl. intros [= <-].
  unfold Qc_leb. case_bool_decide as Hle; [done|].
  by apply Qclt_le_weak, Qcnot_le_lt.
Qed.

Lemma Qc_max_mono (x y : Qc) : x ≤ y → Qc_max 0 x ≤ Qc_max 0 y.
Proof.
  intros H. unfold Qc_max.
  destruct (Qc_ltb 0 x) eqn:Ex, (Qc_ltb 0 y) eqn:Ey; try done.
  - apply Qc_ltb_lt in Ex. apply Qc_ltb_ge in Ey.
    destruct (Qclt_not_le _ _ Ex). by etrans.
  - apply Qc_ltb_lt in Ey. by apply Qclt_le_weak.
Qed.

(** X15: the base raster can only lower the composite.  With the base
    raster masked as at start-up, the composite of a resolving selection is,
    at every pixel, at least 0 and at most the average
    (sum of positives - sum of negatives) / n of the layers alone, clamped
    at 0. *)
Theorem composite_at_most_layer_average
    (data_list : list FactorEntry) (base_raster : positive) (s : State)
    (raw : grid) (base : DataArray)
    (pos_factors neg_factors : option (list string))
    (pos_layers neg_layers : list DataArray) :
  heap s !! base_raster = Some base →
  data base = zero_where_ge0 raw →
  nothing_selected pos_factors neg_factors = false →
  Forall2 (resolves_to data_list (layers_dir s) (data base))
          (default [] pos_factors) pos_layers →
  Forall2 (resolves_to data_list (layers_dir s) (data base))
          (default [] neg_factors) neg_layers →
  ∃ A a s',
    composite data_list base_raster pos_factors neg_factors s = (Returned A, s')
    ∧ heap s' !! A = Some a
    ∧ ∀ r c b, cell (data base) r c = Some b →
        ∃ xs ys v,
          Forall2 (λ (B : DataArray) x, cell (data B) r c = Some x) pos_layers xs
          ∧ Forall2 (λ (B : DataArray) y, cell (data B) r c = Some y) neg_layers ys
          ∧ cell (data a) r c = Some v
          ∧ 0 ≤ v
          ∧ v ≤ Qc_max 0 ((total xs - total ys)
                          / Qc_of_nat (length pos_layers + length neg_layers)).
Proof.
  intros Hb Hraw Hsel Hpos Hneg.
  assert (Hn : (0 < length pos_layers + length neg_layers)%nat).
  { rewrite <- (list.Forall2_length _ _ _ Hpos), <- (list.Forall2_length _ _ _ Hneg).
    by apply selection_size. }
  destruct (composite_cells data_list base_raster s base pos_factors
              neg_factors pos_layers neg_layers Hb Hpos Hneg Hn)
    as (a & s' & Hrun & Ha & _ & _ & _ & Hcells).
  exists (fresh (dom (heap s))), a, s'. do 2 (split; [done|]).
  intros r c b Hbc.
  destruct (Hcells r c b Hbc) as (xs & ys & Hxs & Hys & Hcell).
  eexists xs, ys, _. do 3 (split; [done|]). split; [apply Qc_max_l|].
  apply Qc_max_mono. unfold Qcdiv. apply Qcmult_le_mono_nonneg_r.
  - apply Qclt_le_weak, Qcinv_pos, Qc_of_nat_pos. lia.
  - apply (Qcle_shift _ _ b 0); [ring|].
    rewrite Hraw in Hbc. by eapply masked_nonpositive.
Qed.

Lemma composite_at_most_layer_average_witness :
  ∃ A a s',
    composite sample_catalog sample_base (Some ["A"]) None sample_state
      = (Returned A, s')
    ∧ heap s' !! A = Some a
    ∧ ∃ v, cell (data a) 0 1 = Some v ∧ 0 ≤ v ∧ v ≤ qc 3 1.
Proof.
  destruct (composite_at_most_layer_average sample_catalog sample_base
              sample_state [[qc 3 1; qc (-1) 1]; [0; qc 5 1]]
              (mkDataArray [[0; qc (-1) 1]; [0; 0]] sample_bounds)
              (Some ["A"]) None
              [mkDataArray [[qc 1 1; qc 3 1]; [qc 2 1; qc 4 1]] sample_bounds] [])
    as (A & a & s' & Hrun & Ha & Hcells).
  - by_evaluation.
  - by_evaluation.
  - done.
  - repeat constructor; by_evaluation.
  - constructor.
  - exists A, a, s'. do 2 (split; [done|]).
    destruct (Hcells 0%nat 1%nat (qc (-1) 1) eq_refl)
      as (xs & ys & v & Hxs & Hys & Hv & H0 & Hle).
    exists v. do 2 (split; [done|]).
    inversion Hxs as [|? x1 ? ? H1 Hxs']; subst.
    inversion Hxs'; subst. inversion Hys; subst. injection H1 as <-.
    etrans; [exact Hle|]. by_evaluation.
Defined.

(** X16: whenever [composite] returns, the grid it leaves has no negative
    cell. *)
Theorem composite_has_no_negative_cell
    (data_list : list FactorEntry) (base_raster : positive)
    (pos_factors neg_factors : option (list string)) (s s' : State)
    (A : positive) :
  composite data_list base_raster pos_factors neg_factors s = (Returned A, s') →
  ∃ a, heap s' !! A = Some a
       ∧ ∀ r c x, cell (data a) r c = Some x → 0 ≤ x.
Proof.
  intros Hrun.
  destruct (composite_nonneg _ _ _ _ _ _ _ Hrun) as (a & Ha & Hpos).
  exists a. split; [done|]. intros r c x Hx.
  unfold cell in Hx. destruct (data a !! r) as [row|] eqn:Er; [|done].
  rewrite Forall_lookup in Hpos. specialize (Hpos _ _ Er).
  rewrite Forall_lookup in Hpos. by apply (Hpos c).
Qed.

Lemma composite_has_no_negative_cell_witness :
  ∃ a, heap (composite sample_catalog sample_base (Some ["A"]) (Some ["B"])
               sample_state).2 !! 2%positive = Some a
       ∧ ∀ r c x, cell (data a) r c = Some x → 0 ≤ x.
Proof.
  apply (composite_has_no_negative_cell sample_catalog sample_base
           (Some ["A"]) (Some ["B"]) sample_state).
  assert (H : (composite sample_catalog sample_base (Some ["A"]) (Some ["B"])
                 sample_state).1 = Returned 2%positive) by by_evaluation.
  destruct (composite _ _ _ _ _) as [o st]. simpl in *. by rewrite H.
Defined.

(** ** The colour scale *)

Lemma colorscale_from_samples jet to_hex (n_colors : nat) idx :
  (Z.of_nat n_colors - 1 ≠ 0)%Z →
  colorscale_from jet to_hex idx n_colors =
    Returned ((λ i, to_hex (jet (Fin (Qc_of_nat i
                                      / Qc_of_Z (Z.of_nat n_colors - 1)))))
              <$> idx).
Proof.
  intros Hn. induction idx as [|i idx IH]; simpl; [done|].
  rewrite bool_decide_eq_false_2 by done. by rewrite IH.
Qed.

(** X17: the colour scale of n >= 2 colours has n entries, sampled from the
    ramp at i/(n-1): the first is the colour of 0 and the last the colour
    of 1.  With n = 0 it is empty, and with n = 1 the division by n - 1
    raises ZeroDivisionError. *)
Theorem colorscale_samples
    (jet : float64 → pixel) (to_hex : pixel → string) (n_colors : nat) :
  get_jet_colorscale jet to_hex 0 = Returned []
  ∧ get_jet_colorscale jet to_hex 1 = Raised ZeroDivisionError
  ∧ ((2 ≤ n_colors)%nat →
     ∃ colours,
       get_jet_colorscale jet to_hex n_colors = Returned colours
       ∧ length colours = n_colors
       ∧ colours !! 0%nat = Some (to_hex (jet (Fin 0)))
       ∧ colours !! (n_colors - 1)%nat = Some (to_hex (jet (Fin 1)))
       ∧ ∀ i, (i < n_colors)%nat →
           colours !! i =
             Some (to_hex (jet (Fin (Qc_of_nat i / Qc_of_nat (n_colors - 1)))))).
Proof.
  split; [done|]. split; [done|]. intros Hn.
  unfold get_jet_colorscale. rewrite colorscale_from_samples by lia.
  assert (Hd : Qc_of_Z (Z.of_nat n_colors - 1) = Qc_of_nat (n_colors - 1)).
  { unfold Qc_of_nat. f_equal. lia. }
  rewrite Hd.
  assert (Hsample : ∀ i, (i < n_colors)%nat →
            ((λ i, to_hex (jet (Fin (Qc_of_nat i / Qc_of_nat (n_colors - 1)))))
               <$> seq 0 n_colors) !! i
            = Some (to_hex (jet (Fin (Qc_of_nat i / Qc_of_nat (n_colors - 1)))))).
  { intros i Hi. by rewrite list_lookup_fmap, lookup_seq_lt. }
  eexists. split; [reflexivity|].
  split; [by rewrite length_fmap, length_seq|].
  split; [|split; [|done]].
  - rewrite Hsample by lia.
    assert (Qc_of_nat 0 / Qc_of_nat (n_colors - 1) = 0) as ->; [|done].
    change (Qc_of_nat 0) with (Qc_of_Z 0). rewrite Z2Qc_inj_0.
    unfold Qcdiv. apply Qcmult_0_l.
  - rewrite Hsample by lia.
    assert (Qc_of_nat (n_colors - 1) / Qc_of_nat (n_colors - 1) = 1) as ->;
      [|done].
    unfold Qcdiv. apply Qcmult_inv_r.
    intros E. pose proof (Qc_of_nat_pos (n_colors - 1)) as Hp.
    rewrite E in Hp. apply (Qclt_not_eq 0 0); [apply Hp; lia | done].
Qed.

Lemma colorscale_samples_witness :
  ∃ colours,
    get_jet_colorscale sample_ramp (λ p, "#") 10 = Returned colours
    ∧ length colours = 10%nat.
Proof.
  destruct (proj2 (proj2 (colorscale_samples sample_ramp (λ p, "#") 10)))
    as (l & Hl & Hlen & _); [lia|].
  by exists l.
Defined.

(** ** The opacity slider *)

(** X18: the opacity is passed through and influences nothing else: the same
    request with another opacity leaves the same world behind (the same image
    is written again), raises the same exception or returns the same URL,
    bounds and description, with the new opacity. *)
Theorem opacity_only_passes_through
    (data_list : list FactorEntry) (base_raster : positive)
    (jet : float64 → pixel) (pos_factors neg_factors : option (list string))
    (transparency1 transparency2 : Qc) (data_threshold : Z) (now : datetime)
    (s : State) :
  let r1 := update_map data_list base_raster jet pos_factors neg_factors
              transparency1 data_threshold now s in
  let r2 := update_map data_list base_raster jet pos_factors neg_factors
              transparency2 data_threshold now s in
  r2.2 = r1.2
  ∧ (∀ e, r1.1 = Raised e → r2.1 = Raised e)
  ∧ (∀ o, r1.1 = Returned o →
       opacity o = transparency1
       ∧ r2.1 = Returned (mkOutputs (image_url o) (out_bounds o)
                                    transparency2 (description o))).
Proof.
  cbv zeta. unfold update_map.
  destruct (negb (truthy pos_factors) && negb (truthy neg_factors)).
  { simpl. split; [done|]. split; [done|]. by intros o [= <-]. }
  unfold mbind, M_bind.
  destruct (composite _ _ _ _ s) as [[A|e] s1]; [|by simpl; eauto].
  destruct (colorize _ _ A _ s1) as [[[rgba bnds]|e] s2]; [|by simpl; eauto].
  destruct (save_image _ _ s2) as [[[]|e] s3]; [|by simpl; eauto].
  destruct (describe _ _ _ s3) as [[d|e] s4]; [|by simpl; eauto].
  simpl. split; [done|]. split; [done|]. by intros o [= <-].
Qed.

Lemma opacity_only_passes_through_witness :
  let r1 := update_map sample_catalog sample_base sample_ramp (Some ["A"]) None
              (qc 1 2) 0 sample_time sample_state in
  let r2 := update_map sample_catalog sample_base sample_ramp (Some ["A"]) None
              (qc 1 4) 0 sample_time sample_state in
  r2.2 = r1.2
  ∧ ∃ o, r1.1 = Returned o
         ∧ r2.1 = Returned (mkOutputs (image_url o) (out_bounds o)
                                      (qc 1 4) (description o)).
Proof.
  intros r1 r2.
  destruct (opacity_only_passes_through sample_catalog sample_base sample_ramp
              (Some ["A"]) None (qc 1 2) (qc 1 4) 0 sample_time sample_state)
    as (Hst & _ & Hret).
  split; [done|].
  assert (Hr : is_Some (returned r1)) by by_evaluation.
  unfold returned in Hr. destruct (r1.1) as [o|] eqn:E; [|by destruct Hr].
  exists o. split; [done|]. by apply Hret.
Defined.
